(** * Auto-Doc Generator: a shallow embedding of [src/extension.ts]

    The extension scans the active document line by line, recognises
    function and class declarations with two regular expressions per
    language, renders a docstring / JSDoc template and inserts it above
    the declaration.  This file embeds the four functions of the source
    ([generateDocstring], [parseFunctionOrClass], [insertDocstringAtLine],
    [generateDocstringsForFile]) together with the JavaScript string
    primitives and the part of the editor API they call, and proves the
    properties of the specification about them. *)

From Stdlib Require Import Ascii String.
From Stdlib Require Import NArith Bool Arith Lia List Sorted.
Import ListNotations.
Open Scope list_scope.

(** ** JavaScript strings

    A JavaScript string is a sequence of UTF-16 code units; regular
    expressions without the [u] flag, [trim], [split] and [includes] all
    work on code units.  A code unit is an [N]. *)

Module JS.

Definition jsstring := list N.

(** A literal: the code units of an ASCII string. *)
Definition lit (s : string) : jsstring :=
  map N_of_ascii (list_ascii_of_string s).

Definition LF : N := 10.      (* the line feed *)
Definition DQUOTE : N := 34.  (* the double quote *)
Definition COMMA : N := 44.

(** [a === b] on strings. *)
Fixpoint eqb (a b : jsstring) : bool :=
  match a, b with
  | [], [] => true
  | c :: a', d :: b' => N.eqb c d && eqb a' b'
  | _, _ => false
  end.

(** [s.startsWith(p)], used by [includes] and by literal regex pieces. *)
Fixpoint startsWith (p s : jsstring) : bool :=
  match p, s with
  | [], _ => true
  | c :: p', d :: s' => N.eqb c d && startsWith p' s'
  | _ :: _, [] => false
  end.

(** [s.includes(needle)]: [needle] occurs at some position of [s]. *)
Fixpoint includes (s needle : jsstring) : bool :=
  startsWith needle s
  || match s with
     | [] => false
     | _ :: s' => includes s' needle
     end.

(** [s.split(sep)] for a one-character separator: never empty,
    [''.split(',')] is [['']]. *)
Fixpoint split (sep : N) (s : jsstring) : list jsstring :=
  match s with
  | [] => [[]]
  | c :: s' =>
      if N.eqb c sep then [] :: split sep s'
      else match split sep s' with
           | [] => [[c]]
           | h :: t => (c :: h) :: t
           end
  end.

(** [parts.join(sep)]. *)
Fixpoint join (sep : jsstring) (parts : list jsstring) : jsstring :=
  match parts with
  | [] => []
  | [p] => p
  | p :: rest => p ++ sep ++ join sep rest
  end.

(** The class [\s]: WhiteSpace and LineTerminator code points. *)
Definition is_space (c : N) : bool :=
  ((9 <=? c) && (c <=? 13)            (* TAB LF VT FF CR *)
   || (c =? 32) || (c =? 160)          (* space, NBSP *)
   || (c =? 5760)                      (* U+1680 *)
   || ((8192 <=? c) && (c <=? 8202))   (* U+2000 .. U+200A *)
   || (c =? 8232) || (c =? 8233)       (* U+2028, U+2029 *)
   || (c =? 8239) || (c =? 8287)       (* U+202F, U+205F *)
   || (c =? 12288) || (c =? 65279))%N. (* U+3000, U+FEFF *)

(** The class [\w]: [A-Za-z0-9_]. *)
Definition is_word (c : N) : bool :=
  ((65 <=? c) && (c <=? 90)
   || (97 <=? c) && (c <=? 122)
   || (48 <=? c) && (c <=? 57)
   || (c =? 95))%N.

(** The class [[^)]]. *)
Definition not_rparen (c : N) : bool := negb (N.eqb c 41).

Fixpoint dropWhile (p : N -> bool) (s : jsstring) : jsstring :=
  match s with
  | [] => []
  | c :: s' => if p c then dropWhile p s' else s
  end.

Fixpoint takeWhile (p : N -> bool) (s : jsstring) : jsstring :=
  match s with
  | [] => []
  | c :: s' => if p c then c :: takeWhile p s' else []
  end.

(** [s.trim()]: strips the [\s] characters at both ends. *)
Definition trim (s : jsstring) : jsstring :=
  rev (dropWhile is_space (rev (dropWhile is_space s))).

(** [s.replace(/\n/g, r)]: every line feed is replaced by [r]. *)
Definition replace_LF (r : jsstring) (s : jsstring) : jsstring :=
  flat_map (fun c => if N.eqb c LF then r else [c]) s.

(** [s.length ? a : b] and [p.length > 0]. *)
Definition nonempty {A} (l : list A) : bool :=
  match l with [] => false | _ :: _ => true end.

End JS.

(** ** Regular expressions

    The four patterns of the source are sequences of literals and of
    greedy repetitions of a character class, anchored at the start of the
    line and open at the end.  [exec] is a backtracking matcher for such
    sequences: a repetition takes as many characters as it can and gives
    them back one by one until the rest of the pattern matches.  The
    result is the list of the capture groups, in order. *)

Module Regex.
Import JS.

Inductive quant := star | plus.

Inductive piece :=
| Lit (s : jsstring)                   (* literal text *)
| Rep (q : quant) (cls : N -> bool)    (* a class under star or plus *)
| Cap (q : quant) (cls : N -> bool).   (* the same, in a capture group *)

Definition regex := list piece.

Definition at_least_one (q : quant) : bool :=
  match q with star => false | plus => true end.

(** Greedy repetition of [cls] followed by the continuation [k]; [need]
    says that no character has been taken yet and one is required.
    Returns the characters taken and the captures of the continuation. *)
Fixpoint repeat_then (cls : N -> bool) (k : jsstring -> option (list jsstring))
         (need : bool) (s : jsstring) : option (jsstring * list jsstring) :=
  let stop :=
    if need then None
    else match k s with
         | Some caps => Some ([], caps)
         | None => None
         end in
  match s with
  | c :: s' =>
      if cls c then
        match repeat_then cls k false s' with
        | Some (taken, caps) => Some (c :: taken, caps)
        | None => stop
        end
      else stop
  | [] => stop
  end.

Fixpoint exec (re : regex) (s : jsstring) : option (list jsstring) :=
  match re with
  | [] => Some []
  | Lit l :: re' =>
      if startsWith l s then exec re' (skipn (length l) s) else None
  | Rep q cls :: re' =>
      match repeat_then cls (exec re') (at_least_one q) s with
      | Some (_, caps) => Some caps
      | None => None
      end
  | Cap q cls :: re' =>
      match repeat_then cls (exec re') (at_least_one q) s with
      | Some (taken, caps) => Some (taken :: caps)
      | None => None
      end
  end.

(** [m[i]] for a capture group, [i >= 1], of a match [m]. *)
Definition group (m : list jsstring) (i : nat) : jsstring :=
  nth (i - 1) m [].

End Regex.

(** ** The editor

    The part of the host API the extension calls.  A document is its
    language identifier and its lines; a line's text holds no line
    terminator.  The editor keeps the document and, for observation, the
    edits applied to it so far, oldest first. *)

Module VSCode.
Import JS.

Record TextDocument := {
  languageId : jsstring;
  lines : list jsstring
}.

Definition lineCount (d : TextDocument) : nat := length (lines d).

(** [document.lineAt(n).text]; [None] stands for the exception the host
    throws when [n] is not a line of the document. *)
Definition lineAt (d : TextDocument) (n : nat) : option jsstring :=
  nth_error (lines d) n.

Record Position := { line : nat; character : nat }.

Record TextEditor := {
  document : TextDocument;
  applied : list (Position * jsstring)
}.

(** [editor.edit(b => b.insert(pos, text))]: [text] is placed in front of
    column [character pos] of line [line pos], and the line feeds of the
    result delimit the new lines.  The line feed is the only line break
    the extension writes; the host breaks lines at a carriage return as
    well, which no text built from a line of the document holds. *)
Definition edit_insert (editor : TextEditor) (pos : Position) (text : jsstring)
  : option TextEditor :=
  let d := document editor in
  match lineAt d (line pos) with
  | None => None
  | Some l =>
      let changed := firstn (character pos) l ++ text ++ skipn (character pos) l in
      Some {| document :=
                {| languageId := languageId d;
                   lines := firstn (line pos) (lines d)
                            ++ split LF changed
                            ++ skipn (S (line pos)) (lines d) |};
              applied := applied editor ++ [(pos, text)] |}
  end.

End VSCode.

(** ** The extension *)

Module Extension.
Import JS Regex VSCode.

Definition python := lit "python".
Definition javascript := lit "javascript".
Definition typescript := lit "typescript".

Definition triple_quote : jsstring := [DQUOTE; DQUOTE; DQUOTE].
Definition block_open : jsstring := lit "/**".

(** Generates a professional docstring or JSDoc template. *)
Definition generateDocstring (language name : jsstring) (params : list jsstring)
  : jsstring :=
  if eqb language python then
    let paramLines :=
      join [LF] (map (fun p => lit ":param " ++ p ++ lit ": DESCRIPTION") params) in
    triple_quote ++ name ++ lit " description." ++ [LF; LF]
      ++ paramLines ++ (if nonempty params then [LF] else [])
      ++ lit ":return: DESCRIPTION" ++ [LF] ++ triple_quote
  else if eqb language javascript || eqb language typescript then
    let paramLines :=
      join [LF] (map (fun p => lit " * @param {any} " ++ p ++ lit " DESCRIPTION") params) in
    lit "/**" ++ [LF] ++ lit " * " ++ name ++ lit " description." ++ [LF]
      ++ paramLines ++ (if nonempty params then [LF] else [])
      ++ lit " * @returns {any} DESCRIPTION" ++ [LF] ++ lit " */"
  else [].

Inductive kind := function | class.

Record declaration := {
  type : kind;
  name : jsstring;
  params : list jsstring
}.

(** The source's pattern, its tokens set apart:
    [^ \s* def \s+ ( \w+ ) \s* \( ( [^)]* ) \)]. *)
Definition funcRegex_python : regex :=
  [Rep star is_space; Lit (lit "def"); Rep plus is_space; Cap plus is_word;
   Rep star is_space; Lit (lit "("); Cap star not_rparen; Lit (lit ")")].

(** The source's pattern, its tokens set apart:
    [^ \s* function \s+ ( \w+ ) \s* \( ( [^)]* ) \)]. *)
Definition funcRegex_other : regex :=
  [Rep star is_space; Lit (lit "function"); Rep plus is_space; Cap plus is_word;
   Rep star is_space; Lit (lit "("); Cap star not_rparen; Lit (lit ")")].

(** The source's pattern [^ \s* class \s+ ( \w+ )], the same in both
    branches. *)
Definition classRegex_any : regex :=
  [Rep star is_space; Lit (lit "class"); Rep plus is_space; Cap plus is_word].

Definition funcRegex (language : jsstring) : regex :=
  if eqb language python then funcRegex_python else funcRegex_other.

Definition classRegex (language : jsstring) : regex :=
  if eqb language python then classRegex_any else classRegex_any.

(** Detects function or class declaration and returns {type, name, params};
    [None] is the source's [null]. *)
Definition parseFunctionOrClass (line language : jsstring) : option declaration :=
  match exec (funcRegex language) line with
  | Some matchFunc =>
      let params :=
        filter (fun p => 0 <? length p)
               (map trim (split COMMA (group matchFunc 2))) in
      Some {| type := function; name := group matchFunc 1; params := params |}
  | None =>
      match exec (classRegex language) line with
      | Some matchClass =>
          Some {| type := class; name := group matchClass 1; params := [] |}
      | None => None
      end
  end.

(** The leading-whitespace pattern [^ ( \s* )] of [insertDocstringAtLine]. *)
Definition indentRegex : regex := [Cap star is_space].

(** Inserts docstring at a specific line. *)
Definition insertDocstringAtLine (editor : TextEditor) (lineNumber : nat)
           (docstring : jsstring) : option TextEditor :=
  match lineAt (document editor) lineNumber with
  | None => None
  | Some lineText =>
      let indent :=
        match exec indentRegex lineText with
        | Some indentMatch => group indentMatch 1
        | None => []
        end in
      edit_insert editor {| line := lineNumber; character := 0 |}
        (indent ++ replace_LF ([LF] ++ indent) docstring ++ [LF])
  end.

(** The inner loop [for (let i = 0; i <= 2; i++)] over the values of [i]
    still to visit: the line itself and the two above it, as far as they
    exist; it stops at the first line holding either marker. *)
Fixpoint hasDocstring_from (d : TextDocument) (lineNumber : nat) (offsets : list nat)
  : option bool :=
  match offsets with
  | [] => Some false
  | i :: rest =>
      if i <=? lineNumber then
        match lineAt d (lineNumber - i) with
        | None => None
        | Some checkLine =>
            if includes checkLine triple_quote || includes checkLine block_open
            then Some true
            else hasDocstring_from d lineNumber rest
        end
      else hasDocstring_from d lineNumber rest
  end.

Definition hasDocstring (d : TextDocument) (lineNumber : nat) : option bool :=
  hasDocstring_from d lineNumber [0; 1; 2].

(** One turn of the outer loop of [generateDocstringsForFile]. *)
Definition iteration (language : jsstring) (lineNumber : nat) (editor : TextEditor)
  : option TextEditor :=
  match lineAt (document editor) lineNumber with
  | None => None
  | Some lineText =>
      match parseFunctionOrClass lineText language with
      | None => Some editor
      | Some parsed =>
          match hasDocstring (document editor) lineNumber with
          | None => None
          | Some true => Some editor
          | Some false =>
              let docstring :=
                generateDocstring language (name parsed) (params parsed) in
              insertDocstringAtLine editor lineNumber docstring
          end
      end
  end.

(** The outer loop, from [lineNumber] up to the line count read before
    the first turn; [remaining] is [totalLines - lineNumber]. *)
Fixpoint scan (language : jsstring) (remaining lineNumber : nat)
         (editor : TextEditor) : option TextEditor :=
  match remaining with
  | 0 => Some editor
  | S remaining' =>
      match iteration language lineNumber editor with
      | None => None
      | Some editor' => scan language remaining' (S lineNumber) editor'
      end
  end.

(** Generate docstrings for all functions and classes in the active file.
    The editor is the active one; without an active editor the source
    returns before it reads anything. *)
Definition generateDocstringsForFile (editor : TextEditor) : option TextEditor :=
  let language := languageId (document editor) in
  let totalLines := lineCount (document editor) in
  scan language totalLines 0 editor.

(** An editor opened on a file, no edit applied yet. *)
Definition open (language : jsstring) (text : list jsstring) : TextEditor :=
  {| document := {| languageId := language; lines := text |}; applied := [] |}.

End Extension.


(** ** Vocabulary of the properties *)

Module Properties.
Import JS Regex VSCode Extension.

(** A line of a document holds no line feed. *)
Definition single_line (l : jsstring) : Prop := ~ In LF l.

(** A document as the host keeps it: every line is a single line. *)
Definition well_formed (d : TextDocument) : Prop :=
  Forall single_line (lines d).

(** The line holds one of the two markers the source looks for. *)
Definition has_marker (l : jsstring) : Prop :=
  includes l triple_quote = true \/ includes l block_open = true.

(** A marker on line [lineNumber] or on one of the two lines above it. *)
Definition marker_in_window (d : TextDocument) (lineNumber : nat) : Prop :=
  exists k l,
    lineNumber - 2 <= k <= lineNumber /\ lineAt d k = Some l /\ has_marker l.

(** The marker of the language's own family, in the specification's
    words: the triple quote for Family A, the block-comment opener for
    Family B. *)
Definition family_marker (language : jsstring) : jsstring :=
  if eqb language python then triple_quote else block_open.

(** The window in the specification's words: the family's marker on one
    of the two lines above [lineNumber], that line left out. *)
Definition family_marker_above (language : jsstring) (d : TextDocument)
           (lineNumber : nat) : Prop :=
  exists k l,
    lineNumber - 2 <= k < lineNumber
    /\ lineAt d k = Some l /\ includes l (family_marker language) = true.

(** The leading whitespace run of a line. *)
Definition indentation (l : jsstring) : jsstring := takeWhile is_space l.

(** The template as inserted above a line indented by [indent], without
    the closing line break. *)
Definition reindented (indent docstring : jsstring) : jsstring :=
  indent ++ replace_LF ([LF] ++ indent) docstring.

(** The line matches the pattern. *)
Definition matches (re : regex) (l : jsstring) : Prop :=
  exists m, exec re l = Some m.

(** A concrete line is a single line, by evaluation. *)
Ltac single_line_by_evaluation :=
  unfold single_line; vm_compute; intuition discriminate.

(** A concrete line does not match a pattern, by evaluation. *)
Ltac no_match_by_evaluation :=
  let m := fresh "m" in
  let Hm := fresh "Hm" in
  intros [m Hm]; vm_compute in Hm; discriminate.

End Properties.

(** ** The shape of declaration lines *)

Module Shapes.
Import JS Regex VSCode Extension Properties.

(** Every character of [s] is in the class. *)
Definition all (cls : N -> bool) (s : jsstring) : Prop :=
  Forall (fun c => cls c = true) s.

(** [s] is empty or starts with a character outside the class. *)
Definition stops (cls : N -> bool) (s : jsstring) : Prop :=
  match s with
  | [] => True
  | c :: _ => cls c = false
  end.

(** The keyword in the function pattern of a language. *)
Definition function_keyword (language : jsstring) : jsstring :=
  if eqb language python then lit "def" else lit "function".

(** The function pattern with its keyword left open. *)
Definition function_pattern (keyword : jsstring) : regex :=
  [Rep star is_space; Lit keyword; Rep plus is_space; Cap plus is_word;
   Rep star is_space; Lit (lit "("); Cap star not_rparen; Lit (lit ")")].

(** A function line: whitespace, the keyword, whitespace, a name of
    word characters, whitespace, and between parentheses a text without
    closing parenthesis; anything may follow. *)
Definition function_shape (keyword line name args : jsstring) : Prop :=
  exists ws ws1 ws2 tail,
    line = ws ++ keyword ++ ws1 ++ name ++ ws2
              ++ lit "(" ++ args ++ lit ")" ++ tail
    /\ all is_space ws
    /\ all is_space ws1 /\ ws1 <> []
    /\ all is_word name /\ name <> []
    /\ all is_space ws2
    /\ all not_rparen args.

(** A class line: whitespace, "class", whitespace and a name of word
    characters, as long as it goes. *)
Definition class_shape (line name : jsstring) : Prop :=
  exists ws ws1 tail,
    line = ws ++ lit "class" ++ ws1 ++ name ++ tail
    /\ all is_space ws
    /\ all is_space ws1 /\ ws1 <> []
    /\ all is_word name /\ name <> []
    /\ stops is_word tail.

(** A parameter as the matcher returns it: not empty, no whitespace at
    either end, no comma and no closing parenthesis inside. *)
Definition clean_param (p : jsstring) : Prop :=
  p <> []
  /\ stops is_space p /\ stops is_space (rev p)
  /\ ~ In COMMA p /\ ~ In 41%N p.

(** The parameters the matcher reads out of the text between the
    parentheses. *)
Definition parameters (args : jsstring) : list jsstring :=
  filter (fun p => 0 <? length p) (map trim (split COMMA args)).

(** The line of the Family A template for one parameter. *)
Definition param_line_A (p : jsstring) : jsstring :=
  lit ":param " ++ p ++ lit ": DESCRIPTION".

(** The line of the Family B template for one parameter. *)
Definition param_line_B (p : jsstring) : jsstring :=
  lit " * @param {any} " ++ p ++ lit " DESCRIPTION".

(** A whitespace character or a comma. *)
Definition space_or_comma (c : N) : bool := is_space c || N.eqb c COMMA.

End Shapes.

(** ** The command

    [generateDocstringsForFile] as the command the extension registers:
    it reads the active editor of the window, returns with a message
    when there is none, and otherwise runs the loop and reports. *)

Module Command.
Import JS VSCode Extension.

Record Window := {
  activeTextEditor : option TextEditor;
  shown : list jsstring   (* showInformationMessage, oldest first *)
}.

Definition no_editor_message : jsstring := lit "No active editor found.".

Definition done_message : jsstring :=
  lit "Docstrings inserted for all functions/classes in file!".

Definition showInformationMessage (w : Window) (message : jsstring) : Window :=
  {| activeTextEditor := activeTextEditor w; shown := shown w ++ [message] |}.

(** The whole of the source's [generateDocstringsForFile]; [None] is an
    exception of the host. *)
Definition run (w : Window) : option Window :=
  match activeTextEditor w with
  | None => Some (showInformationMessage w no_editor_message)
  | Some editor =>
      match generateDocstringsForFile editor with
      | None => None
      | Some editor' =>
          Some (showInformationMessage
                  {| activeTextEditor := Some editor'; shown := shown w |}
                  done_message)
      end
  end.

End Command.

(** ** Vocabulary of the loop's effects *)

Module Effects.
Import JS VSCode Extension Properties.

(** [l1] is [l2] with some elements left out. *)
Inductive subseq {A : Type} : list A -> list A -> Prop :=
| subseq_nil : subseq [] []
| subseq_keep (x : A) (l1 l2 : list A) : subseq l1 l2 -> subseq (x :: l1) (x :: l2)
| subseq_add (x : A) (l1 l2 : list A) : subseq l1 l2 -> subseq l1 (x :: l2).

(** A document with [j] lines of a declaration's indentation above the
    declaration. *)
Definition flooded_lines (above below : list jsstring) (lineText : jsstring)
           (j : nat) : list jsstring :=
  above ++ repeat (indentation lineText) j ++ lineText :: below.

(** The block a declaration gets: its template behind its indentation,
    line by line. *)
Definition block_of (language lineText : jsstring) (parsed : declaration)
  : list jsstring :=
  map (app (indentation lineText))
      (split LF (generateDocstring language (name parsed) (params parsed))).

(** The number of lines of the Family A and Family B templates. *)
Definition block_height (parsed : declaration) : nat :=
  4 + length (params parsed).

(** A document with [j] copies of a block above a declaration. *)
Definition documented_lines (above below block : list jsstring)
           (lineText : jsstring) (j : nat) : list jsstring :=
  above ++ concat (repeat block j) ++ lineText :: below.

(** An edit at the start of a line between [lo] and [hi] whose text ends
    with a line feed. *)
Definition whole_lines_edit (lo hi : nat) (ed : Position * jsstring) : Prop :=
  character (fst ed) = 0
  /\ lo <= line (fst ed) < hi
  /\ exists t, snd ed = t ++ [LF].

(** The line numbers of a list of edits. *)
Definition edit_lines (eds : list (Position * jsstring)) : list nat :=
  map (fun ed => line (fst ed)) eds.

(** The line feeds in the texts of a list of edits. *)
Definition line_feeds (eds : list (Position * jsstring)) : nat :=
  list_sum (map (fun ed => count_occ N.eq_dec (snd ed) LF) eds).

(** The language has no template: it is none of the three identifiers
    [generateDocstring] knows. *)
Definition without_template (language : jsstring) : Prop :=
  language <> python /\ language <> javascript /\ language <> typescript.

End Effects.

(** ** Facts about the string primitives *)

Module JSFacts.
Import JS.

Lemma eqb_refl (a : jsstring) : eqb a a = true.
Proof.
  induction a as [|c a IH]; simpl; [reflexivity|].
  now rewrite N.eqb_refl, IH.
Qed.

Lemma eqb_eq (a b : jsstring) : eqb a b = true <-> a = b.
Proof.
  split; [|intros ->; apply eqb_refl].
  revert b; induction a as [|c a IH]; intros [|d b]; simpl; try discriminate; auto.
  intros H; apply andb_true_iff in H as [Hc Hr].
  apply N.eqb_eq in Hc; subst d; f_equal; auto.
Qed.

Lemma eqb_neq (a b : jsstring) : eqb a b = false <-> a <> b.
Proof.
  rewrite <- eqb_eq; destruct (eqb a b); split; congruence.
Qed.

Lemma split_nonempty (sep : N) (s : jsstring) : split sep s <> [].
Proof.
  destruct s as [|c s]; simpl; [discriminate|].
  destruct (N.eqb c sep); [discriminate|].
  destruct (split sep s); discriminate.
Qed.

(** Splitting around one separator: the pieces of both sides, in order. *)
Lemma split_app_sep (sep : N) (a b : jsstring) :
  split sep (a ++ sep :: b) = split sep a ++ split sep b.
Proof.
  induction a as [|c a IH]; simpl.
  - now rewrite N.eqb_refl.
  - destruct (N.eqb c sep); [now rewrite IH|].
    rewrite IH.
    pose proof (split_nonempty sep a) as Hne.
    destruct (split sep a) as [|h t]; [contradiction|reflexivity].
Qed.

(** A prefix without separator is glued to the first piece. *)
Lemma split_prefix (sep : N) (p s : jsstring) :
  ~ In sep p ->
  split sep (p ++ s) = (p ++ hd [] (split sep s)) :: tl (split sep s).
Proof.
  induction p as [|c p IH]; intros Hp; simpl.
  - pose proof (split_nonempty sep s).
    destruct (split sep s); [contradiction|reflexivity].
  - destruct (N.eqb_spec c sep) as [->|Hc]; [exfalso; apply Hp; now left|].
    rewrite IH by (intros H; apply Hp; now right).
    reflexivity.
Qed.

Lemma split_no_sep (sep : N) (s : jsstring) :
  ~ In sep s -> split sep s = [s].
Proof.
  intros H.
  rewrite <- (app_nil_r s) at 1.
  rewrite split_prefix by assumption.
  simpl; now rewrite app_nil_r.
Qed.

(** No piece holds the separator. *)
Lemma split_pieces (sep : N) (s : jsstring) :
  Forall (fun piece => ~ In sep piece) (split sep s).
Proof.
  induction s as [|c s IH]; simpl; [repeat constructor; auto|].
  destruct (N.eqb_spec c sep) as [->|Hc]; [constructor; auto|].
  destruct (split sep s) as [|h t]; [repeat constructor; simpl; intuition|].
  inversion IH as [|? ? Hh Ht]; subst. constructor; [|exact Ht].
  simpl; intros [H|H]; auto.
Qed.

(** A string has one more line than it has line feeds. *)
Lemma length_split (sep : N) (s : jsstring) :
  length (split sep s) = S (count_occ N.eq_dec s sep).
Proof.
  induction s as [|c s IH]; simpl; [reflexivity|].
  destruct (N.eqb_spec c sep) as [->|Hc].
  - destruct (N.eq_dec sep sep); [|contradiction]. simpl. now rewrite IH.
  - destruct (N.eq_dec c sep); [contradiction|].
    pose proof (split_nonempty sep s).
    destruct (split sep s); [contradiction|]. simpl in *. exact IH.
Qed.

Lemma replace_LF_cons (r : jsstring) (c : N) (t : jsstring) :
  replace_LF r (c :: t) = (if N.eqb c LF then r else [c]) ++ replace_LF r t.
Proof. reflexivity. Qed.

(** Lines of a template whose line feeds are followed by [indent]: the
    first line as it was, every later line behind [indent]. *)
Lemma split_replace_LF (indent t : jsstring) :
  ~ In LF indent ->
  split LF (replace_LF ([LF] ++ indent) t)
  = hd [] (split LF t) :: map (app indent) (tl (split LF t)).
Proof.
  intros Hi.
  induction t as [|c t IH]; [reflexivity|].
  rewrite replace_LF_cons.
  pose proof (split_nonempty LF t) as Hne.
  destruct (N.eqb_spec c LF) as [->|Hc].
  - change (([LF] ++ indent) ++ ?r) with ([] ++ LF :: (indent ++ r)).
    rewrite split_app_sep, split_prefix, IH by assumption.
    change (split LF (LF :: t)) with ([] :: split LF t).
    destruct (split LF t); [contradiction|reflexivity].
  - change ([c] ++ ?r) with (c :: r).
    simpl split.
    destruct (N.eqb_spec c LF); [contradiction|].
    change (LF :: indent) with ([LF] ++ indent).
    rewrite IH.
    destruct (split LF t); [contradiction|reflexivity].
Qed.

(** The re-indented template, line by line. *)
Lemma split_reindent (indent t : jsstring) :
  ~ In LF indent ->
  split LF (indent ++ replace_LF ([LF] ++ indent) t)
  = map (app indent) (split LF t).
Proof.
  intros Hi.
  rewrite split_prefix by assumption.
  rewrite split_replace_LF by assumption. simpl.
  pose proof (split_nonempty LF t).
  destruct (split LF t); [contradiction|reflexivity].
Qed.

Lemma takeWhile_incl (p : N -> bool) (s : jsstring) (c : N) :
  In c (takeWhile p s) -> In c s.
Proof.
  induction s as [|d s IH]; simpl; [auto|].
  destruct (p d); simpl; [|contradiction].
  intros [H|H]; auto.
Qed.

Lemma takeWhile_all (p : N -> bool) (s : jsstring) :
  Forall (fun c => p c = true) (takeWhile p s).
Proof.
  induction s as [|d s IH]; simpl; [constructor|].
  destruct (p d) eqn:E; constructor; auto.
Qed.

Lemma takeWhile_dropWhile (p : N -> bool) (s : jsstring) :
  takeWhile p s ++ dropWhile p s = s.
Proof.
  induction s as [|d s IH]; simpl; [reflexivity|].
  destruct (p d); simpl; [now rewrite IH|reflexivity].
Qed.

Lemma startsWith_app (p s : jsstring) : startsWith p (p ++ s) = true.
Proof.
  induction p as [|c p IH]; simpl; [reflexivity|].
  now rewrite N.eqb_refl.
Qed.

End JSFacts.

(** ** Facts about the editor and the loop *)

Module EditorFacts.
Import JS Regex VSCode Extension Properties JSFacts.

Lemma repeat_star_last (cls : N -> bool) (s : jsstring) :
  repeat_then cls (exec []) false s = Some (takeWhile cls s, []).
Proof.
  induction s as [|c s IH]; [reflexivity|].
  cbn [repeat_then takeWhile]. rewrite IH.
  destruct (cls c); reflexivity.
Qed.

(** The indent pattern always matches, and its group is the leading
    whitespace run. *)
Lemma exec_indentRegex (l : jsstring) :
  exec indentRegex l = Some [indentation l].
Proof.
  unfold indentRegex, indentation.
  cbn [exec at_least_one]. now rewrite repeat_star_last.
Qed.

Lemma indentation_single_line (l : jsstring) :
  single_line l -> single_line (indentation l).
Proof.
  unfold single_line, indentation; intros H Hin.
  apply H; eapply takeWhile_incl; eassumption.
Qed.

(** What [insertDocstringAtLine] does on a line that exists. *)
Lemma insertDocstringAtLine_eq (editor : TextEditor) (n : nat)
      (lineText docstring : jsstring) :
  lineAt (document editor) n = Some lineText ->
  insertDocstringAtLine editor n docstring
  = Some {| document :=
              {| languageId := languageId (document editor);
                 lines := firstn n (lines (document editor))
                          ++ split LF (reindented (indentation lineText) docstring
                                       ++ LF :: lineText)
                          ++ skipn (S n) (lines (document editor)) |};
            applied := applied editor
                       ++ [({| line := n; character := 0 |},
                            reindented (indentation lineText) docstring ++ [LF])] |}.
Proof.
  intros Hl.
  unfold insertDocstringAtLine.
  rewrite Hl, exec_indentRegex.
  unfold edit_insert; cbn [line character group Nat.sub nth firstn skipn].
  rewrite Hl. unfold reindented.
  cbn [app]. repeat rewrite <- app_assoc. reflexivity.
Qed.

Lemma lineAt_Some (d : TextDocument) (n : nat) :
  n < lineCount d -> exists l, lineAt d n = Some l.
Proof.
  unfold lineAt, lineCount; intros H.
  destruct (nth_error (lines d) n) eqn:E; [eauto|].
  apply nth_error_None in E; lia.
Qed.

Lemma lineAt_lt (d : TextDocument) (n : nat) (l : jsstring) :
  lineAt d n = Some l -> n < lineCount d.
Proof.
  unfold lineAt, lineCount; intros H.
  apply nth_error_Some; congruence.
Qed.

(** The line and its tail: [skipn n] starts with line [n]. *)
Lemma skipn_lineAt (d : TextDocument) (n : nat) (l : jsstring) :
  lineAt d n = Some l -> skipn n (lines d) = l :: skipn (S n) (lines d).
Proof.
  unfold lineAt. generalize (lines d) as ls.
  induction n as [|n IH]; intros [|x ls]; simpl; try discriminate.
  - now intros [= ->].
  - intros H; now apply IH.
Qed.

Lemma includes_marker_bool (l : jsstring) :
  includes l triple_quote || includes l block_open = true <-> has_marker l.
Proof. unfold has_marker; apply orb_true_iff. Qed.

(** The inner loop never fails on a line that exists, and answers whether
    one of the lines it visits holds a marker. *)
Lemma hasDocstring_from_spec (d : TextDocument) (n : nat) (offsets : list nat) :
  n < lineCount d ->
  exists b,
    hasDocstring_from d n offsets = Some b
    /\ (b = true <->
        exists i l, In i offsets /\ i <= n
                    /\ lineAt d (n - i) = Some l /\ has_marker l).
Proof.
  intros Hn.
  induction offsets as [|i rest (b & Hb & IH)]; cbn [hasDocstring_from].
  - exists false; split; [reflexivity|].
    split; [discriminate|]. intros (i & l & [] & _).
  - destruct (Nat.leb_spec i n) as [Hi|Hi].
    + destruct (lineAt_Some d (n - i)) as [l Hl]; [lia|]. rewrite Hl.
      destruct (includes l triple_quote || includes l block_open) eqn:E.
      * exists true; split; [reflexivity|]. split; [intros _|reflexivity].
        exists i, l. apply includes_marker_bool in E. simpl; auto.
      * exists b; split; [exact Hb|]. rewrite IH. split.
        -- intros (j & l' & Hj & H); exists j, l'; simpl; auto.
        -- intros (j & l' & [<-|Hj] & Hle & Hl' & Hm); [|exists j, l'; auto].
           apply includes_marker_bool in Hm. congruence.
    + exists b; split; [exact Hb|]. rewrite IH. split.
      * intros (j & l' & Hj & H); exists j, l'; simpl; auto.
      * intros (j & l' & [<-|Hj] & Hle & H); [lia|exists j, l'; auto].
Qed.

Lemma hasDocstring_window (d : TextDocument) (n : nat) :
  n < lineCount d ->
  exists b, hasDocstring d n = Some b /\ (b = true <-> marker_in_window d n).
Proof.
  intros Hn.
  destruct (hasDocstring_from_spec d n [0; 1; 2] Hn) as (b & Hb & Hiff).
  exists b; split; [exact Hb|]. rewrite Hiff. unfold marker_in_window. split.
  - intros (i & l & Hi & Hle & Hl & Hm). exists (n - i), l.
    simpl in Hi. repeat split; auto; lia.
  - intros (k & l & Hk & Hl & Hm). exists (n - k), l.
    replace (n - (n - k)) with k by lia.
    repeat split; auto; [|lia]. simpl. lia.
Qed.

(** The lines of the document after an insertion above a single line:
    the block, one line per template line, then the target line. *)
Lemma insertDocstringAtLine_lines (editor : TextEditor) (n : nat)
      (lineText docstring : jsstring) :
  lineAt (document editor) n = Some lineText ->
  single_line lineText ->
  exists editor',
    insertDocstringAtLine editor n docstring = Some editor'
    /\ languageId (document editor') = languageId (document editor)
    /\ applied editor'
       = applied editor
         ++ [({| line := n; character := 0 |},
              reindented (indentation lineText) docstring ++ [LF])]
    /\ lines (document editor')
       = firstn n (lines (document editor))
         ++ split LF (reindented (indentation lineText) docstring)
         ++ skipn n (lines (document editor)).
Proof.
  intros Hl Hs.
  rewrite (insertDocstringAtLine_eq _ _ _ _ Hl).
  eexists; split; [reflexivity|]. cbn [document languageId applied lines].
  repeat split.
  rewrite split_app_sep, (split_no_sep LF lineText Hs), (skipn_lineAt _ _ _ Hl).
  now rewrite <- app_assoc.
Qed.

(** Insertions keep the document well formed. *)
Lemma insertDocstringAtLine_well_formed (editor editor' : TextEditor) (n : nat)
      (docstring : jsstring) :
  well_formed (document editor) ->
  insertDocstringAtLine editor n docstring = Some editor' ->
  well_formed (document editor').
Proof.
  unfold well_formed; intros Hwf He.
  destruct (lineAt (document editor) n) as [l|] eqn:Hl;
    [|unfold insertDocstringAtLine in He; rewrite Hl in He; discriminate].
  rewrite (insertDocstringAtLine_eq _ _ _ _ Hl) in He.
  injection He as <-. cbn [document lines].
  rewrite <- (firstn_skipn n (lines (document editor))) in Hwf.
  rewrite (skipn_lineAt _ _ _ Hl) in Hwf.
  apply Forall_app in Hwf as [Hhead Htail].
  inversion Htail as [|? ? _ Hrest]; subst.
  repeat (apply Forall_app; split); auto.
  apply split_pieces.
Qed.

(** An insertion makes the document longer, whatever the line holds. *)
Lemma insertDocstringAtLine_grows (editor : TextEditor) (n : nat)
      (docstring : jsstring) :
  n < lineCount (document editor) ->
  exists editor',
    insertDocstringAtLine editor n docstring = Some editor'
    /\ lineCount (document editor) < lineCount (document editor')
    /\ length (applied editor') = S (length (applied editor)).
Proof.
  intros Hn. destruct (lineAt_Some _ _ Hn) as [l Hl].
  rewrite (insertDocstringAtLine_eq _ _ _ _ Hl).
  eexists; split; [reflexivity|].
  unfold lineCount in *; cbn [document lines applied].
  rewrite split_app_sep.
  repeat rewrite length_app. rewrite length_firstn, length_skipn.
  rewrite !length_split. simpl. lia.
Qed.

(** One turn of the loop on a line that exists: it does not throw and
    never shortens the document. *)
Lemma iteration_total (language : jsstring) (n : nat) (editor : TextEditor) :
  n < lineCount (document editor) ->
  exists editor',
    iteration language n editor = Some editor'
    /\ lineCount (document editor) <= lineCount (document editor').
Proof.
  intros Hn. unfold iteration.
  destruct (lineAt_Some _ _ Hn) as [l ->].
  destruct (parseFunctionOrClass l language) as [parsed|]; [|eauto].
  destruct (hasDocstring_window _ _ Hn) as ([|] & -> & _); [eauto|].
  destruct (insertDocstringAtLine_grows editor n
              (generateDocstring language (name parsed) (params parsed)) Hn)
    as (e' & -> & Hlt & _).
  exists e'; split; [reflexivity|lia].
Qed.

Lemma iteration_well_formed (language : jsstring) (n : nat)
      (editor editor' : TextEditor) :
  well_formed (document editor) ->
  iteration language n editor = Some editor' ->
  well_formed (document editor').
Proof.
  intros Hwf. unfold iteration.
  destruct (lineAt (document editor) n) as [lineText|]; [|discriminate].
  destruct (parseFunctionOrClass lineText language); [|now intros [= <-]].
  destruct (hasDocstring (document editor) n) as [[|]|];
    [now intros [= <-]| |discriminate].
  now apply insertDocstringAtLine_well_formed.
Qed.

(** Well-formedness is an invariant of the loop. *)
Lemma scan_well_formed (language : jsstring) (remaining : nat) :
  forall n editor editor',
    well_formed (document editor) ->
    scan language remaining n editor = Some editor' ->
    well_formed (document editor').
Proof.
  induction remaining as [|r IH]; intros n editor editor' Hwf; simpl.
  - now intros [= <-].
  - destruct (iteration language n editor) as [e1|] eqn:E; [|discriminate].
    apply IH. eapply iteration_well_formed; eassumption.
Qed.

Lemma scan_total (language : jsstring) (remaining n : nat) (editor : TextEditor) :
  n + remaining <= lineCount (document editor) ->
  exists editor', scan language remaining n editor = Some editor'.
Proof.
  revert n editor.
  induction remaining as [|r IH]; intros n editor Hn; simpl; [eauto|].
  destruct (iteration_total language n editor) as (e' & -> & Hle); [lia|].
  apply IH; lia.
Qed.

Lemma generateDocstringsForFile_well_formed (editor editor' : TextEditor) :
  well_formed (document editor) ->
  generateDocstringsForFile editor = Some editor' ->
  well_formed (document editor').
Proof. unfold generateDocstringsForFile. apply scan_well_formed. Qed.

(** The generator runs to the end on every document. *)
Lemma generateDocstringsForFile_total (editor : TextEditor) :
  exists editor', generateDocstringsForFile editor = Some editor'.
Proof.
  unfold generateDocstringsForFile. apply scan_total; simpl; lia.
Qed.

End EditorFacts.

(** ** The Template Builder and the Declaration Matcher on the
       specification's examples *)

Module Templates.
Import JS Regex VSCode Extension Properties JSFacts.

(** C5.  For Family A the line "def greet(name, age):" is matched as a
    function declaration named greet with the parameters name and age,
    and its template is the triple quote, "greet description.", an empty
    line, one ":param p: DESCRIPTION" line for name and one for age, the
    line ":return: DESCRIPTION" and the closing triple quote, separated
    by single line feeds. *)
Theorem greet_python :
  parseFunctionOrClass (lit "def greet(name, age):") python
  = Some {| type := function; name := lit "greet";
            params := [lit "name"; lit "age"] |}
  /\ generateDocstring python (lit "greet") [lit "name"; lit "age"]
     = triple_quote ++ lit "greet description." ++ [LF] ++ [LF]
       ++ lit ":param name: DESCRIPTION" ++ [LF]
       ++ lit ":param age: DESCRIPTION" ++ [LF]
       ++ lit ":return: DESCRIPTION" ++ [LF]
       ++ triple_quote.
Proof. split; reflexivity. Qed.

(** C6.  For Family B the line "function add(a, b) {" is matched as a
    function declaration named add with the parameters a and b, and its
    template is the block opener, " * add description.", one
    " * @param {any} p DESCRIPTION" line for a and one for b, the line
    " * @returns {any} DESCRIPTION" and the closing " */", separated by
    single line feeds. *)
Theorem add_javascript :
  parseFunctionOrClass (lit "function add(a, b) {") javascript
  = Some {| type := function; name := lit "add";
            params := [lit "a"; lit "b"] |}
  /\ generateDocstring javascript (lit "add") [lit "a"; lit "b"]
     = lit "/**" ++ [LF]
       ++ lit " * add description." ++ [LF]
       ++ lit " * @param {any} a DESCRIPTION" ++ [LF]
       ++ lit " * @param {any} b DESCRIPTION" ++ [LF]
       ++ lit " * @returns {any} DESCRIPTION" ++ [LF]
       ++ lit " */".
Proof. split; reflexivity. Qed.

(** The same template under the other name of Family B. *)
Lemma add_typescript :
  generateDocstring typescript (lit "add") [lit "a"; lit "b"]
  = generateDocstring javascript (lit "add") [lit "a"; lit "b"].
Proof. reflexivity. Qed.

(** C3, as stated, fails: in the template of "def run():" the line after
    the description line is empty, and the return line comes only after
    it; the description is nowhere followed directly by the return
    line. *)
Lemma run_template_has_blank_line :
  let template := generateDocstring python (lit "run") [] in
  split LF template
  = [triple_quote ++ lit "run description."; [];
     lit ":return: DESCRIPTION"; triple_quote]
  /\ nth 1 (split LF template) [] <> lit ":return: DESCRIPTION"
  /\ includes template (lit " description." ++ [LF] ++ lit ":return:") = false.
Proof.
  cbv zeta. repeat split; try reflexivity.
  vm_compute; discriminate.
Qed.

(** C3, amended.  For Family A with an empty parameter list (as for
    "def run():") the template is the description line, one empty line,
    the return line and the closing triple quote: no ":param" line and
    no second empty line stand between the description and the return
    line. *)
Theorem no_params_python (name : jsstring) :
  parseFunctionOrClass (lit "def run():") python
  = Some {| type := function; name := lit "run"; params := [] |}
  /\ generateDocstring python name []
     = triple_quote ++ name ++ lit " description." ++ [LF] ++ [LF]
       ++ lit ":return: DESCRIPTION" ++ [LF] ++ triple_quote.
Proof. split; reflexivity. Qed.

End Templates.

(** ** The Insertion Applier *)

Module Insertion.
Import JS Regex VSCode Extension Properties JSFacts EditorFacts.

(** C7.  Whatever the document, the target line and the template, the
    inserted block has one line per template line, each the target
    line's leading whitespace run followed by that template line: every
    line of the block begins with exactly that run. *)
Theorem block_shares_indentation (editor : TextEditor) (n : nat)
        (lineText docstring : jsstring) :
  lineAt (document editor) n = Some lineText ->
  single_line lineText ->
  let indent := indentation lineText in
  let block := map (app indent) (split LF docstring) in
  exists editor',
    insertDocstringAtLine editor n docstring = Some editor'
    /\ lines (document editor')
       = firstn n (lines (document editor))
         ++ block ++ skipn n (lines (document editor))
    /\ Forall (fun l => startsWith indent l = true) block
    /\ Forall (fun c => is_space c = true) indent
    /\ exists rest, lineText = indent ++ rest
                    /\ (forall c tl, rest = c :: tl -> is_space c = false).
Proof.
  intros Hl Hs indent block.
  destruct (insertDocstringAtLine_lines editor n lineText docstring Hl Hs)
    as (e' & He & _ & _ & Hlines).
  exists e'; split; [exact He|].
  split.
  { rewrite Hlines. unfold reindented.
    rewrite split_reindent by now apply indentation_single_line.
    reflexivity. }
  split.
  { subst block. apply Forall_forall. intros l Hin.
    apply in_map_iff in Hin as (t & <- & _). apply startsWith_app. }
  split; [apply takeWhile_all|].
  exists (dropWhile is_space lineText). split.
  - symmetry; apply takeWhile_dropWhile.
  - intros c tl. clear. induction lineText as [|d s IH]; simpl; [discriminate|].
    destruct (is_space d) eqn:E; [exact IH|]. now intros [= <- _].
Qed.

(** A document where the theorem applies: a method indented with four
    spaces, and the Family A template of "run". *)
Lemma block_shares_indentation_witness :
  let editor := open python [lit "class A:"; lit "    def run(self):"] in
  lineAt (document editor) 1 = Some (lit "    def run(self):")
  /\ single_line (lit "    def run(self):")
  /\ exists editor',
    insertDocstringAtLine editor 1 (generateDocstring python (lit "run") [lit "self"])
    = Some editor'
    /\ lines (document editor')
       = [lit "class A:";
          lit "    " ++ triple_quote ++ lit "run description.";
          lit "    ";
          lit "    :param self: DESCRIPTION";
          lit "    :return: DESCRIPTION";
          lit "    " ++ triple_quote;
          lit "    def run(self):"].
Proof.
  cbv zeta.
  destruct (block_shares_indentation
              (open python [lit "class A:"; lit "    def run(self):"]) 1
              (lit "    def run(self):")
              (generateDocstring python (lit "run") [lit "self"]))
    as (e' & He & Hlines & _).
  - reflexivity.
  - single_line_by_evaluation.
  - split; [reflexivity|]. split.
    + single_line_by_evaluation.
    + exists e'. split; [exact He|]. rewrite Hlines. reflexivity.
Defined.

(** C8.  Every insertion is one edit at column 0 of the target line,
    whose text is the re-indented template and one closing line feed.
    The lines above the target keep their place, the block takes as many
    lines as the re-indented template has line feeds plus one, and the
    target line, unchanged, comes directly after the block; it and every
    line below it have moved down by that number. *)
Theorem insertion_frame (editor : TextEditor) (n : nat)
        (lineText docstring : jsstring) :
  lineAt (document editor) n = Some lineText ->
  single_line lineText ->
  let text := reindented (indentation lineText) docstring in
  let shift := count_occ N.eq_dec text LF + 1 in
  exists editor',
    insertDocstringAtLine editor n docstring = Some editor'
    /\ applied editor'
       = applied editor ++ [({| line := n; character := 0 |}, text ++ [LF])]
    /\ lines (document editor')
       = firstn n (lines (document editor))
         ++ split LF text ++ lineText :: skipn (S n) (lines (document editor))
    /\ length (split LF text) = shift
    /\ lineAt (document editor') (n + shift) = Some lineText
    /\ (forall k, k < n ->
         lineAt (document editor') k = lineAt (document editor) k)
    /\ (forall k, n <= k ->
         lineAt (document editor') (k + shift) = lineAt (document editor) k).
Proof.
  intros Hl Hs text shift.
  destruct (insertDocstringAtLine_lines editor n lineText docstring Hl Hs)
    as (e' & He & _ & Happ & Hlines).
  fold text in Happ, Hlines.
  assert (Hshift : length (split LF text) = shift)
    by (subst shift; rewrite length_split; lia).
  assert (Hn : n < length (lines (document editor)))
    by (apply lineAt_lt in Hl; exact Hl).
  assert (Hfirst : length (firstn n (lines (document editor))) = n)
    by (rewrite length_firstn; lia).
  assert (Hbelow : forall k, n <= k ->
            lineAt (document e') (k + shift) = lineAt (document editor) k).
  { intros k Hk. unfold lineAt. rewrite Hlines.
    rewrite nth_error_app2 by lia. rewrite Hfirst.
    rewrite nth_error_app2 by lia. rewrite Hshift.
    replace (k + shift - n - shift) with (k - n) by lia.
    rewrite nth_error_skipn. f_equal; lia. }
  exists e'. repeat split; auto.
  - rewrite Hlines. now rewrite (skipn_lineAt _ _ _ Hl).
  - rewrite Hbelow by lia. exact Hl.
  - intros k Hk. unfold lineAt. rewrite Hlines.
    rewrite nth_error_app1 by lia. rewrite nth_error_firstn.
    destruct (Nat.ltb_spec k n); [reflexivity|lia].
Qed.

(** The theorem on the Family B template above a method indented with
    four spaces: the method moves from line 1 to line 5. *)
Lemma insertion_frame_witness :
  let editor := open javascript [lit "class A {"; lit "    function run() {"] in
  lineAt (document editor) 1 = Some (lit "    function run() {")
  /\ single_line (lit "    function run() {")
  /\ exists editor',
       insertDocstringAtLine editor 1 (generateDocstring javascript (lit "run") [])
       = Some editor'
       /\ lineAt (document editor') 5 = Some (lit "    function run() {")
       /\ lineAt (document editor') 0 = Some (lit "class A {").
Proof.
  cbv zeta.
  assert (Hs : single_line (lit "    function run() {"))
    by single_line_by_evaluation.
  split; [reflexivity|]. split; [exact Hs|].
  destruct (insertion_frame
              (open javascript [lit "class A {"; lit "    function run() {"]) 1
              (lit "    function run() {")
              (generateDocstring javascript (lit "run") []) eq_refl Hs)
    as (e' & He & _ & _ & _ & Hat & Habove & _).
  exists e'. split; [exact He|]. split.
  - exact Hat.
  - rewrite Habove by lia. reflexivity.
Defined.

End Insertion.

(** ** The orchestration loop *)

Module Orchestration.
Import JS Regex VSCode Extension Properties JSFacts EditorFacts.

Lemma funcRegex_not_python (language : jsstring) :
  language <> python -> funcRegex language = funcRegex_other.
Proof.
  intros H. unfold funcRegex. apply eqb_neq in H. now rewrite H.
Qed.

Lemma classRegex_any_language (language : jsstring) :
  classRegex language = classRegex_any.
Proof. unfold classRegex. now destruct (eqb language python). Qed.

(** The Template Builder outside the three identifiers it knows. *)
Lemma generateDocstring_unknown (language name : jsstring) (params : list jsstring) :
  language <> python -> language <> javascript -> language <> typescript ->
  generateDocstring language name params = [].
Proof.
  intros Hp Hj Ht. unfold generateDocstring.
  apply eqb_neq in Hp, Hj, Ht. now rewrite Hp, Hj, Ht.
Qed.

(** A turn of the loop on a matched line. *)
Lemma iteration_matched (language : jsstring) (n : nat) (editor : TextEditor)
      (lineText : jsstring) (parsed : declaration) :
  lineAt (document editor) n = Some lineText ->
  parseFunctionOrClass lineText language = Some parsed ->
  (marker_in_window (document editor) n /\ iteration language n editor = Some editor)
  \/ (~ marker_in_window (document editor) n
      /\ iteration language n editor
         = insertDocstringAtLine editor n
             (generateDocstring language (name parsed) (params parsed))).
Proof.
  intros Hl Hp. unfold iteration. rewrite Hl, Hp.
  destruct (hasDocstring_window (document editor) n (lineAt_lt _ _ _ Hl))
    as ([|] & -> & Hiff).
  - left; split; [now apply Hiff|reflexivity].
  - right; split; [|reflexivity].
    intros H; apply Hiff in H; discriminate.
Qed.

(** A file none of whose lines is a declaration comes back as it was. *)
Lemma scan_unmatched (language : jsstring) (editor : TextEditor) :
  (forall k l, lineAt (document editor) k = Some l ->
               parseFunctionOrClass l language = None) ->
  forall remaining n,
    n + remaining <= lineCount (document editor) ->
    scan language remaining n editor = Some editor.
Proof.
  intros Hno remaining.
  induction remaining as [|r IH]; intros n Hn; simpl; [reflexivity|].
  unfold iteration.
  destruct (lineAt_Some (document editor) n) as [l Hl]; [lia|].
  rewrite Hl, (Hno _ _ Hl). apply IH; lia.
Qed.

(** C1, as stated, fails on two counts.  A declaration line that holds a
    marker itself is skipped although neither line above it does (here
    there is none); and in a Family A document the block-comment opener
    on the line above makes the loop skip, although the marker of
    Family A is the triple quote. *)
Lemma skip_outside_family_window :
  (let editor :=
     open python [lit "def f(): return " ++ triple_quote ++ lit "f" ++ triple_quote] in
   parseFunctionOrClass
     (lit "def f(): return " ++ triple_quote ++ lit "f" ++ triple_quote) python
   = Some {| type := function; name := lit "f"; params := [] |}
   /\ iteration python 0 editor = Some editor
   /\ ~ family_marker_above python (document editor) 0)
  /\
  (let editor := open python [lit "/** legacy */"; lit "def f():"] in
   parseFunctionOrClass (lit "def f():") python
   = Some {| type := function; name := lit "f"; params := [] |}
   /\ iteration python 1 editor = Some editor
   /\ ~ family_marker_above python (document editor) 1).
Proof.
  cbv zeta. repeat split; try reflexivity.
  - intros (k & l & Hk & _). lia.
  - intros (k & l & Hk & Hl & Hm).
    assert (k = 0) as -> by lia.
    vm_compute in Hl. injection Hl as <-.
    vm_compute in Hm. discriminate.
Qed.

(** C1, amended.  For a declaration matched at line i the loop inspects
    line i itself and the lines i-1 and i-2 where they exist, looking for
    either marker whatever the language; it inserts nothing exactly when
    one of these lines holds a marker, and otherwise applies one edit at
    line i. *)
Theorem skip_iff_marker_in_window (language : jsstring) (n : nat)
        (editor : TextEditor) (lineText : jsstring) (parsed : declaration) :
  lineAt (document editor) n = Some lineText ->
  parseFunctionOrClass lineText language = Some parsed ->
  exists editor',
    iteration language n editor = Some editor'
    /\ (applied editor' = applied editor <-> marker_in_window (document editor) n)
    /\ (marker_in_window (document editor) n -> editor' = editor)
    /\ (~ marker_in_window (document editor) n ->
        exists text,
          applied editor'
          = applied editor ++ [({| line := n; character := 0 |}, text)]).
Proof.
  intros Hl Hp.
  destruct (iteration_matched language n editor lineText parsed Hl Hp)
    as [[Hm ->]|[Hm ->]].
  - exists editor. repeat split; auto. contradiction.
  - rewrite (insertDocstringAtLine_eq _ _ _ _ Hl).
    eexists; split; [reflexivity|]. cbn [applied].
    repeat split.
    + intros H. apply (f_equal (@length _)) in H.
      rewrite length_app in H. simpl in H. lia.
    + contradiction.
    + contradiction.
    + intros _. eexists; reflexivity.
Qed.

(** The theorem on a Family A file whose declaration at line 2 has the
    closing triple quote of a docstring right above it. *)
Lemma skip_iff_marker_in_window_witness :
  let editor := open python [triple_quote ++ lit "f."; triple_quote; lit "def f():"] in
  lineAt (document editor) 2 = Some (lit "def f():")
  /\ parseFunctionOrClass (lit "def f():") python
     = Some {| type := function; name := lit "f"; params := [] |}
  /\ exists editor',
       iteration python 2 editor = Some editor'
       /\ (applied editor' = applied editor
           <-> marker_in_window (document editor) 2).
Proof.
  cbv zeta. split; [reflexivity|]. split; [reflexivity|].
  destruct (skip_iff_marker_in_window python 2
              (open python [triple_quote ++ lit "f."; triple_quote; lit "def f():"])
              (lit "def f():")
              {| type := function; name := lit "f"; params := [] |}
              eq_refl eq_refl)
    as (e' & He & Hiff & _).
  exists e'. split; [exact He|exact Hiff].
Defined.

(** C9.  A line that matches neither the function pattern nor the class
    pattern of its language is no declaration for the matcher, and a
    turn of the loop on such a line leaves the document and the list of
    applied edits as they were. *)
Theorem no_false_positive (language line : jsstring) :
  ~ matches (funcRegex language) line ->
  ~ matches (classRegex language) line ->
  parseFunctionOrClass line language = None
  /\ forall editor n,
       lineAt (document editor) n = Some line ->
       iteration language n editor = Some editor.
Proof.
  intros Hf Hc.
  assert (Hp : parseFunctionOrClass line language = None).
  { unfold parseFunctionOrClass.
    destruct (exec (funcRegex language) line) eqn:Ef;
      [exfalso; apply Hf; eexists; exact Ef|].
    destruct (exec (classRegex language) line) eqn:Ec;
      [exfalso; apply Hc; eexists; exact Ec|].
    reflexivity. }
  split; [exact Hp|].
  intros editor n Hl. unfold iteration. now rewrite Hl, Hp.
Qed.

(** The theorem on an assignment in a Family A file. *)
Lemma no_false_positive_witness :
  ~ matches (funcRegex python) (lit "definition = 1")
  /\ ~ matches (classRegex python) (lit "definition = 1")
  /\ parseFunctionOrClass (lit "definition = 1") python = None
  /\ iteration python 1 (open python [lit "def f():"; lit "definition = 1"])
     = Some (open python [lit "def f():"; lit "definition = 1"]).
Proof.
  assert (Hf : ~ matches (funcRegex python) (lit "definition = 1"))
    by no_match_by_evaluation.
  assert (Hc : ~ matches (classRegex python) (lit "definition = 1"))
    by no_match_by_evaluation.
  split; [exact Hf|]. split; [exact Hc|].
  destruct (no_false_positive python (lit "definition = 1") Hf Hc) as [Hp Hit].
  split; [exact Hp|]. apply Hit. reflexivity.
Defined.

(** A whole file without declarations: the generator applies no edit. *)
Lemma unmatched_file_unchanged (editor : TextEditor) :
  (forall l, In l (lines (document editor)) ->
     ~ matches (funcRegex (languageId (document editor))) l
     /\ ~ matches (classRegex (languageId (document editor))) l) ->
  generateDocstringsForFile editor = Some editor.
Proof.
  intros H. unfold generateDocstringsForFile.
  apply scan_unmatched; [|simpl; lia].
  intros k l Hl.
  destruct (H l) as [Hf Hc]; [eapply nth_error_In; exact Hl|].
  unfold parseFunctionOrClass.
  destruct (exec (funcRegex _) l) eqn:Ef; [exfalso; apply Hf; eexists; exact Ef|].
  destruct (exec (classRegex _) l) eqn:Ec; [exfalso; apply Hc; eexists; exact Ec|].
  reflexivity.
Qed.

(** C4 on a Java file of one line: the Template Builder answers the
    empty string, and the loop still applies an edit, which puts a line
    holding the declaration's indentation above the declaration. *)
Theorem unknown_language_inserts_line :
  let editor := open (lit "java") [lit "    class Foo {"] in
  generateDocstring (lit "java") (lit "Foo") [] = []
  /\ generateDocstringsForFile editor
     = Some {| document :=
                 {| languageId := lit "java";
                    lines := [lit "    "; lit "    class Foo {"] |};
               applied :=
                 [({| line := 0; character := 0 |}, lit "    " ++ [LF])] |}.
Proof. split; reflexivity. Qed.

(** C2 on a Family B file: after the first run the opener of the block
    is six lines above the declaration and no marker is in the window of
    the check, so the second run inserts the same block once more. *)
Theorem second_run_inserts_again :
  let source := [lit "function add(a, b) {"; lit "}"] in
  let block :=
    split LF (generateDocstring javascript (lit "add") [lit "a"; lit "b"]) in
  exists first second,
    generateDocstringsForFile (open javascript source) = Some first
    /\ lines (document first) = block ++ source
    /\ length (applied first) = 1
    /\ ~ marker_in_window (document first) 6
    /\ generateDocstringsForFile first = Some second
    /\ lines (document second) = block ++ block ++ source
    /\ length (applied second) = 2.
Proof.
  cbv zeta. eexists. eexists.
  split; [vm_compute; reflexivity|].
  split; [reflexivity|]. split; [reflexivity|].
  split.
  { match goal with |- ~ marker_in_window ?d ?n =>
      destruct (hasDocstring_window d n) as (b & Hb & Hiff);
        [vm_compute; lia|] end.
    vm_compute in Hb. injection Hb as <-.
    intros H; apply Hiff in H; discriminate. }
  split; [vm_compute; reflexivity|].
  split; reflexivity.
Qed.

(** The same on a Family A file with two declarations: the first run
    stops at the line count it read at the start and never reaches the
    second declaration, which the second run then documents. *)
Lemma stale_line_count_python :
  let source := [lit "def a():"; lit "x = 1"; lit "y = 2"; lit "def b():"] in
  exists first second,
    generateDocstringsForFile (open python source) = Some first
    /\ length (applied first) = 1
    /\ generateDocstringsForFile first = Some second
    /\ length (applied second) = 2
    /\ lines (document second)
       = split LF (generateDocstring python (lit "a") [])
         ++ [lit "def a():"; lit "x = 1"; lit "y = 2"]
         ++ split LF (generateDocstring python (lit "b") [])
         ++ [lit "def b():"].
Proof.
  cbv zeta. eexists. eexists.
  split; [vm_compute; reflexivity|].
  split; [reflexivity|].
  split; [vm_compute; reflexivity|].
  split; reflexivity.
Qed.

End Orchestration.

(** ** Facts about the matcher *)

Module RegexFacts.
Import JS Regex VSCode Extension Properties Shapes JSFacts.

Lemma startsWith_iff (p s : jsstring) :
  startsWith p s = true <-> exists rest, s = p ++ rest.
Proof.
  split.
  - revert s; induction p as [|c p IH]; intros s H; [now exists s|].
    destruct s as [|d s]; [discriminate|]. simpl in H.
    apply andb_true_iff in H as [Hc Hr]. apply N.eqb_eq in Hc; subst d.
    destruct (IH s Hr) as [rest ->]. now exists rest.
  - intros [rest ->]. apply startsWith_app.
Qed.

Lemma skipn_length_app (p rest : jsstring) : skipn (length p) (p ++ rest) = rest.
Proof. induction p; simpl; auto. Qed.

(** What a repetition took, and where the rest of the pattern went on. *)
Lemma repeat_then_sound (cls : N -> bool) (k : jsstring -> option (list jsstring))
      (s : jsstring) :
  forall need taken caps,
    repeat_then cls k need s = Some (taken, caps) ->
    exists rest,
      s = taken ++ rest /\ all cls taken /\ k rest = Some caps
      /\ (need = true -> taken <> []).
Proof.
  assert (Hstop : forall (need : bool) (s0 taken : jsstring) caps,
             (if need then None
              else match k s0 with
                   | Some caps0 => Some (@nil N, caps0)
                   | None => None
                   end) = Some (taken, caps) ->
             exists rest, s0 = taken ++ rest /\ all cls taken
                          /\ k rest = Some caps /\ (need = true -> taken <> [])).
  { intros [|] s0 taken caps H; [discriminate|].
    destruct (k s0) as [caps0|] eqn:Ek; [|discriminate].
    injection H as <- <-. exists s0. repeat split; auto.
    - constructor.
    - discriminate. }
  induction s as [|c s IH]; intros need taken caps H.
  - apply Hstop. exact H.
  - cbn [repeat_then] in H.
    destruct (cls c) eqn:Ec; [|apply Hstop; exact H].
    destruct (repeat_then cls k false s) as [[t caps0]|] eqn:Er;
      [|apply Hstop; exact H].
    injection H as <- <-.
    destruct (IH false t caps0 Er) as (rest & -> & Hall & Hk & _).
    exists rest. repeat split; auto.
    + constructor; assumption.
    + discriminate.
Qed.

(** A run of the class that cannot go on is what the repetition takes. *)
Lemma repeat_then_greedy (cls : N -> bool) (k : jsstring -> option (list jsstring))
      (taken rest : jsstring) (caps : list jsstring) :
  all cls taken -> stops cls rest -> k rest = Some caps ->
  forall need, (need = true -> taken <> []) ->
  repeat_then cls k need (taken ++ rest) = Some (taken, caps).
Proof.
  intros Hall Hstops Hk.
  induction Hall as [|c t Hc Ht IH]; intros need Hneed.
  - destruct need; [exfalso; now apply Hneed|].
    simpl. destruct rest as [|d rest]; cbn [repeat_then].
    + now rewrite Hk.
    + simpl in Hstops. rewrite Hstops. now rewrite Hk.
  - cbn [app repeat_then]. rewrite Hc.
    now rewrite (IH false) by discriminate.
Qed.

Lemma exec_Lit (l : jsstring) (re : regex) (s : jsstring) (m : list jsstring) :
  exec (Lit l :: re) s = Some m
  <-> exists rest, s = l ++ rest /\ exec re rest = Some m.
Proof.
  cbn [exec]. split.
  - destruct (startsWith l s) eqn:E; [|discriminate].
    apply startsWith_iff in E as [rest ->].
    rewrite skipn_length_app. eauto.
  - intros (rest & -> & H). now rewrite startsWith_app, skipn_length_app.
Qed.

Lemma exec_Rep_sound (q : quant) (cls : N -> bool) (re : regex)
      (s : jsstring) (m : list jsstring) :
  exec (Rep q cls :: re) s = Some m ->
  exists taken rest,
    s = taken ++ rest /\ all cls taken /\ (q = plus -> taken <> [])
    /\ exec re rest = Some m.
Proof.
  cbn [exec].
  destruct (repeat_then cls (exec re) (at_least_one q) s) as [[taken caps]|] eqn:E;
    [|discriminate].
  intros [= <-].
  apply repeat_then_sound in E as (rest & -> & Hall & Hk & Hneed).
  exists taken, rest. repeat split; auto.
  intros ->. now apply Hneed.
Qed.

Lemma exec_Cap_sound (q : quant) (cls : N -> bool) (re : regex)
      (s : jsstring) (m : list jsstring) :
  exec (Cap q cls :: re) s = Some m ->
  exists taken rest caps,
    m = taken :: caps /\ s = taken ++ rest /\ all cls taken
    /\ (q = plus -> taken <> []) /\ exec re rest = Some caps.
Proof.
  cbn [exec].
  destruct (repeat_then cls (exec re) (at_least_one q) s) as [[taken caps]|] eqn:E;
    [|discriminate].
  intros [= <-].
  apply repeat_then_sound in E as (rest & -> & Hall & Hk & Hneed).
  exists taken, rest, caps. repeat split; auto.
  intros ->. now apply Hneed.
Qed.

Lemma exec_Rep_greedy (q : quant) (cls : N -> bool) (re : regex)
      (taken rest : jsstring) (m : list jsstring) :
  all cls taken -> stops cls rest -> (q = plus -> taken <> []) ->
  exec re rest = Some m ->
  exec (Rep q cls :: re) (taken ++ rest) = Some m.
Proof.
  intros Hall Hstops Hq Hk. cbn [exec].
  rewrite (repeat_then_greedy cls (exec re) taken rest m Hall Hstops Hk);
    [reflexivity|].
  destruct q; [discriminate|auto].
Qed.

Lemma exec_Cap_greedy (q : quant) (cls : N -> bool) (re : regex)
      (taken rest : jsstring) (caps : list jsstring) :
  all cls taken -> stops cls rest -> (q = plus -> taken <> []) ->
  exec re rest = Some caps ->
  exec (Cap q cls :: re) (taken ++ rest) = Some (taken :: caps).
Proof.
  intros Hall Hstops Hq Hk. cbn [exec].
  rewrite (repeat_then_greedy cls (exec re) taken rest caps Hall Hstops Hk);
    [reflexivity|].
  destruct q; [discriminate|auto].
Qed.

(** The classes [\w] and [\s] share no character. *)
Lemma word_not_space (c : N) : is_word c = true -> is_space c = false.
Proof.
  unfold is_word, is_space. intros H.
  repeat (apply orb_true_iff in H as [H|H]);
    repeat (apply andb_true_iff in H as [? H]);
    repeat match goal with
           | X : (_ <=? _)%N = true |- _ => apply N.leb_le in X
           | X : (_ =? _)%N = true |- _ => apply N.eqb_eq in X
           end;
    repeat (apply orb_false_iff; split);
    try (apply andb_false_iff;
         first [left; apply N.leb_gt; lia | right; apply N.leb_gt; lia]);
    apply N.eqb_neq; lia.
Qed.

Lemma space_not_word (c : N) : is_space c = true -> is_word c = false.
Proof.
  intros H. destruct (is_word c) eqn:E; [|reflexivity].
  apply word_not_space in E. congruence.
Qed.

(** A run of the class before a text that stops it is the longest run. *)
Lemma takeWhile_app_stops (cls : N -> bool) (a x : jsstring) :
  all cls a -> stops cls x ->
  takeWhile cls (a ++ x) = a /\ dropWhile cls (a ++ x) = x.
Proof.
  intros Ha Hx. induction Ha as [|c a Hc Ha IH]; simpl.
  - destruct x as [|d x]; simpl in *; [auto|]. now rewrite Hx.
  - rewrite Hc. destruct IH as [-> ->]. auto.
Qed.

Lemma stops_dropWhile (cls : N -> bool) (s : jsstring) :
  stops cls (dropWhile cls s).
Proof.
  induction s as [|c s IH]; simpl; [exact I|].
  destruct (cls c) eqn:E; [exact IH|exact E].
Qed.

Lemma repeat_plus_last (cls : N -> bool) (s taken : jsstring)
      (caps : list jsstring) :
  repeat_then cls (exec []) true s = Some (taken, caps) ->
  taken = takeWhile cls s /\ caps = [] /\ taken <> [].
Proof.
  destruct s as [|c s]; cbn [repeat_then]; [discriminate|].
  destruct (cls c) eqn:E; [|discriminate].
  rewrite EditorFacts.repeat_star_last. intros [= <- <-].
  cbn [takeWhile]. rewrite E. repeat split. discriminate.
Qed.

Lemma funcRegex_pattern (language : jsstring) :
  funcRegex language = function_pattern (function_keyword language).
Proof.
  unfold funcRegex, function_keyword. now destruct (eqb language python).
Qed.

Lemma function_keyword_head (language : jsstring) :
  exists c k, function_keyword language = c :: k /\ is_space c = false
              /\ c <> 99%N.
Proof.
  unfold function_keyword. destruct (eqb language python).
  - exists 100%N, (lit "ef"). repeat split. discriminate.
  - exists 102%N, (lit "unction"). repeat split. discriminate.
Qed.

(** What a match of the function pattern says about the line. *)
Lemma function_pattern_sound (keyword line : jsstring) (m : list jsstring) :
  exec (function_pattern keyword) line = Some m ->
  exists name args, m = [name; args] /\ function_shape keyword line name args.
Proof.
  unfold function_pattern. intros H.
  apply exec_Rep_sound in H as (ws & r0 & -> & Hws & _ & H).
  apply exec_Lit in H as (r1 & -> & H).
  apply exec_Rep_sound in H as (ws1 & r2 & -> & Hws1 & Hne1 & H).
  apply exec_Cap_sound in H as (name & r3 & caps & -> & -> & Hname & Hne & H).
  apply exec_Rep_sound in H as (ws2 & r4 & -> & Hws2 & _ & H).
  apply exec_Lit in H as (r5 & -> & H).
  apply exec_Cap_sound in H as (args & r6 & caps' & -> & -> & Hargs & _ & H).
  apply exec_Lit in H as (tail & -> & H).
  cbn [exec] in H. injection H as <-.
  exists name, args. split; [reflexivity|].
  exists ws, ws1, ws2, tail. repeat split; auto.
Qed.

(** Every line of the shape is matched, with these very groups. *)
Lemma function_pattern_complete (keyword line name args : jsstring) :
  stops is_space keyword -> keyword <> [] ->
  function_shape keyword line name args ->
  exec (function_pattern keyword) line = Some [name; args].
Proof.
  intros Hk Hk0 (ws & ws1 & ws2 & tail & -> & Hws & Hws1 & Hne1 & Hname & Hne
                 & Hws2 & Hargs).
  unfold function_pattern.
  apply exec_Rep_greedy;
    [exact Hws | destruct keyword; [contradiction|exact Hk] | discriminate |].
  apply exec_Lit. eexists; split; [reflexivity|].
  apply exec_Rep_greedy; [exact Hws1 | | intros _; exact Hne1 |].
  { destruct name as [|c name]; [contradiction|].
    inversion Hname; subst. simpl. now apply word_not_space. }
  apply exec_Cap_greedy; [exact Hname | | intros _; exact Hne |].
  { destruct ws2 as [|c ws2]; [reflexivity|].
    inversion Hws2; subst. simpl. now apply space_not_word. }
  apply exec_Rep_greedy; [exact Hws2 | reflexivity | discriminate |].
  apply exec_Lit. eexists; split; [reflexivity|].
  apply exec_Cap_greedy; [exact Hargs | reflexivity | discriminate |].
  apply exec_Lit. eexists; split; [reflexivity|]. reflexivity.
Qed.

Lemma class_pattern_sound (line : jsstring) (m : list jsstring) :
  exec classRegex_any line = Some m ->
  exists name, m = [name] /\ class_shape line name.
Proof.
  unfold classRegex_any. intros H.
  apply exec_Rep_sound in H as (ws & r0 & -> & Hws & _ & H).
  apply exec_Lit in H as (r1 & -> & H).
  apply exec_Rep_sound in H as (ws1 & r2 & -> & Hws1 & Hne1 & H).
  cbn [exec] in H.
  destruct (repeat_then is_word _ _ r2) as [[name caps]|] eqn:E;
    [|discriminate].
  injection H as <-.
  apply (repeat_plus_last is_word r2 name caps) in E as (-> & -> & Hne).
  exists (takeWhile is_word r2). split; [reflexivity|].
  exists ws, ws1, (dropWhile is_word r2).
  rewrite takeWhile_dropWhile. repeat split; auto.
  - apply takeWhile_all.
  - apply stops_dropWhile.
Qed.

Lemma class_pattern_complete (line name : jsstring) :
  class_shape line name -> exec classRegex_any line = Some [name].
Proof.
  intros (ws & ws1 & tail & -> & Hws & Hws1 & Hne1 & Hname & Hne & Htail).
  unfold classRegex_any.
  apply exec_Rep_greedy; [exact Hws | reflexivity | discriminate |].
  apply exec_Lit. eexists; split; [reflexivity|].
  apply exec_Rep_greedy; [exact Hws1 | | intros _; exact Hne1 |].
  { destruct name as [|c name]; [contradiction|].
    inversion Hname; subst. simpl. now apply word_not_space. }
  rewrite <- (app_nil_r tail) at 1.
  apply exec_Cap_greedy; [exact Hname | | intros _; exact Hne | reflexivity].
  now rewrite app_nil_r.
Qed.

(** After the leading whitespace a matched line goes on with the
    keyword of the pattern. *)
Lemma function_shape_keyword (keyword line name args : jsstring) :
  stops is_space keyword -> keyword <> [] ->
  function_shape keyword line name args ->
  exists rest, dropWhile is_space line = keyword ++ rest.
Proof.
  intros Hk Hk0 (ws & ws1 & ws2 & tail & -> & Hws & _).
  eexists. apply takeWhile_app_stops; [exact Hws|].
  destruct keyword; [contradiction|exact Hk].
Qed.

Lemma class_shape_keyword (line name : jsstring) :
  class_shape line name ->
  exists rest, dropWhile is_space line = lit "class" ++ rest.
Proof.
  intros (ws & ws1 & tail & -> & Hws & _).
  eexists. apply takeWhile_app_stops; [exact Hws|reflexivity].
Qed.

(** No line matches the function pattern and the class pattern. *)
Lemma function_excludes_class (language line : jsstring) :
  matches (funcRegex language) line -> ~ matches (classRegex language) line.
Proof.
  intros [m Hf] [m' Hc].
  rewrite funcRegex_pattern in Hf. rewrite Orchestration.classRegex_any_language in Hc.
  apply function_pattern_sound in Hf as (name & args & _ & Hf).
  apply class_pattern_sound in Hc as (name' & _ & Hc).
  destruct (function_keyword_head language) as (c & k & Hkw & Hsp & Hc99).
  apply function_shape_keyword in Hf as [rest Hrest];
    [|rewrite Hkw; exact Hsp|rewrite Hkw; discriminate].
  apply class_shape_keyword in Hc as [rest' Hrest'].
  rewrite Hrest, Hkw in Hrest'. injection Hrest' as Hhead _.
  now apply Hc99.
Qed.

(** *** What [trim] and the splitting at commas keep *)

Lemma dropWhile_nil_iff (cls : N -> bool) (s : jsstring) :
  dropWhile cls s = [] <-> all cls s.
Proof.
  induction s as [|c s IH]; simpl; [split; [constructor|reflexivity]|].
  destruct (cls c) eqn:E.
  - rewrite IH. split; [now constructor|now inversion 1].
  - split; [discriminate|]. inversion 1; congruence.
Qed.

Lemma dropWhile_incl (cls : N -> bool) (s : jsstring) (c : N) :
  In c (dropWhile cls s) -> In c s.
Proof.
  intros H. rewrite <- (takeWhile_dropWhile cls s).
  apply in_or_app. now right.
Qed.

Lemma trim_incl (s : jsstring) (c : N) : In c (trim s) -> In c s.
Proof.
  unfold trim. intros H.
  apply in_rev, dropWhile_incl in H. apply in_rev in H.
  now apply dropWhile_incl in H.
Qed.

Lemma trim_nil_iff (s : jsstring) : trim s = [] <-> all is_space s.
Proof.
  unfold trim. split.
  - intros H. apply (f_equal (@rev N)) in H. rewrite rev_involutive in H.
    simpl in H. apply dropWhile_nil_iff in H.
    assert (Hu : all is_space (dropWhile is_space s)).
    { unfold all in *. apply Forall_forall. intros c Hc.
      rewrite Forall_forall in H. apply H. now apply in_rev in Hc. }
    pose proof (stops_dropWhile is_space s) as Hs.
    destruct (dropWhile is_space s) as [|c u] eqn:E.
    + now apply dropWhile_nil_iff.
    + inversion Hu; subst. simpl in Hs. congruence.
  - intros H. apply dropWhile_nil_iff in H. now rewrite H.
Qed.

(** A trimmed text has no whitespace at either end. *)
Lemma trim_stops (s : jsstring) :
  stops is_space (trim s) /\ stops is_space (rev (trim s)).
Proof.
  unfold trim. rewrite rev_involutive. split; [|apply stops_dropWhile].
  pose proof (stops_dropWhile is_space s) as Hs.
  set (u := dropWhile is_space s) in *.
  pose proof (takeWhile_dropWhile is_space (rev u)) as Hsplit.
  apply (f_equal (@rev N)) in Hsplit.
  rewrite rev_app_distr, rev_involutive in Hsplit.
  destruct (rev (dropWhile is_space (rev u))) as [|c v]; [exact I|].
  rewrite <- Hsplit in Hs. exact Hs.
Qed.

Lemma split_incl (sep : N) (s piece : jsstring) (c : N) :
  In piece (split sep s) -> In c piece -> In c s.
Proof.
  revert piece. induction s as [|d s IH]; intros piece; simpl.
  - intros [<-|[]] [].
  - destruct (N.eqb d sep).
    + intros [<-|H] Hc; [destruct Hc|]. right. eauto.
    + pose proof (split_nonempty sep s) as Hne.
      destruct (split sep s) as [|h t]; [contradiction|].
      intros [<-|H] Hc.
      * destruct Hc as [->|Hc]; [now left|]. right. apply (IH h); simpl; auto.
      * right. apply (IH piece); simpl; auto.
Qed.

(** Every parameter is clean, whatever stood between the parentheses. *)
Lemma parameters_clean (args : jsstring) :
  all not_rparen args -> Forall clean_param (parameters args).
Proof.
  intros Hargs. unfold parameters. apply Forall_forall. intros p Hp.
  apply filter_In in Hp as [Hin Hlen].
  apply in_map_iff in Hin as (piece & <- & Hpiece).
  destruct (trim_stops piece) as [Hfront Hback].
  repeat split; auto.
  - intros E. rewrite E in Hlen. discriminate.
  - intros Hc. apply trim_incl in Hc.
    pose proof (split_pieces COMMA args) as Hall.
    rewrite Forall_forall in Hall. now apply (Hall piece).
  - intros Hc. apply trim_incl in Hc.
    apply (split_incl COMMA args piece _ Hpiece) in Hc.
    unfold all in Hargs. rewrite Forall_forall in Hargs.
    apply Hargs in Hc. discriminate.
Qed.

Lemma parameters_nil_iff (args : jsstring) :
  parameters args = [] <-> all space_or_comma args.
Proof.
  unfold parameters.
  assert (Hfilter : forall pieces : list jsstring,
             filter (fun p => 0 <? length p) (map trim pieces) = []
             <-> Forall (all is_space) pieces).
  { induction pieces as [|p pieces IH]; simpl; [split; auto|].
    destruct (trim p) as [|c t] eqn:E; simpl.
    - rewrite IH. apply trim_nil_iff in E.
      split; [now constructor|now inversion 1].
    - split; [discriminate|]. inversion 1 as [|? ? Hp _]; subst.
      apply trim_nil_iff in Hp. congruence. }
  rewrite Hfilter. clear Hfilter.
  induction args as [|c args IH]; simpl.
  - split; intros _; repeat constructor.
  - pose proof (split_nonempty COMMA args) as Hne.
    destruct (N.eqb_spec c COMMA) as [->|Hc].
    + split.
      * inversion 1; subst. constructor; [reflexivity|now apply IH].
      * inversion 1; subst. constructor; [constructor|now apply IH].
    + destruct (split COMMA args) as [|h t]; [contradiction|].
      assert (Hsc : space_or_comma c = is_space c).
      { unfold space_or_comma. apply N.eqb_neq in Hc. rewrite Hc.
        apply orb_false_r. }
      split.
      * inversion 1 as [|? ? Hch Ht]; subst. inversion Hch; subst.
        constructor; [now rewrite Hsc|]. apply IH. now constructor.
      * inversion 1 as [|? ? Hcc Hrest]; subst.
        apply IH in Hrest. inversion Hrest; subst.
        constructor; [|assumption]. constructor; [now rewrite <- Hsc|assumption].
Qed.

(** *** The matcher, line by line *)

Lemma parse_function_line (language line name args : jsstring) :
  function_shape (function_keyword language) line name args ->
  parseFunctionOrClass line language
  = Some {| type := function; name := name; params := parameters args |}.
Proof.
  intros H. unfold parseFunctionOrClass.
  rewrite funcRegex_pattern.
  destruct (function_keyword_head language) as (c & k & Hkw & Hsp & _).
  rewrite (function_pattern_complete _ line name args); auto.
  - rewrite Hkw. exact Hsp.
  - rewrite Hkw. discriminate.
Qed.

Lemma parse_class_line (language line name : jsstring) :
  class_shape line name ->
  parseFunctionOrClass line language
  = Some {| type := class; name := name; params := [] |}.
Proof.
  intros H. apply class_pattern_complete in H.
  unfold parseFunctionOrClass.
  destruct (exec (funcRegex language) line) as [m|] eqn:Ef.
  - exfalso. apply (function_excludes_class language line).
    + now exists m.
    + rewrite Orchestration.classRegex_any_language. now exists [name].
  - rewrite Orchestration.classRegex_any_language, H. reflexivity.
Qed.

(** Every declaration the matcher returns, with the line it came from. *)
Lemma parse_sound (language line : jsstring) (d : declaration) :
  parseFunctionOrClass line language = Some d ->
  (exists args,
      function_shape (function_keyword language) line (name d) args
      /\ type d = function /\ params d = parameters args)
  \/ (class_shape line (name d) /\ type d = class /\ params d = []).
Proof.
  unfold parseFunctionOrClass.
  destruct (exec (funcRegex language) line) as [m|] eqn:Ef.
  - intros [= <-]. left.
    rewrite funcRegex_pattern in Ef.
    apply function_pattern_sound in Ef as (nm & args & -> & Hshape).
    exists args. repeat split. exact Hshape.
  - rewrite Orchestration.classRegex_any_language.
    destruct (exec classRegex_any line) as [m|] eqn:Ec; [|discriminate].
    intros [= <-]. right.
    apply class_pattern_sound in Ec as (nm & -> & Hshape).
    repeat split. exact Hshape.
Qed.

End RegexFacts.

(** ** The Declaration Matcher on every line *)

Module Matcher.
Import JS Regex VSCode Extension Properties Shapes JSFacts RegexFacts.

(** X1.  The matcher returns a function declaration exactly for the
    lines made of whitespace, the keyword of the language ("def" for
    python, "function" for every other identifier), whitespace, a name
    of word characters, whitespace and a parenthesised text without
    closing parenthesis, whatever follows; the name is that name and the
    parameters are read out of that text. *)
Theorem function_declaration_iff (language line nm : jsstring)
        (ps : list jsstring) :
  parseFunctionOrClass line language
  = Some {| type := function; name := nm; params := ps |}
  <-> exists args,
        function_shape (function_keyword language) line nm args
        /\ ps = parameters args.
Proof.
  split.
  - intros H. apply parse_sound in H as [(args & Hs & _ & Hp)|(_ & Ht & _)].
    + exists args. split; [exact Hs|exact Hp].
    + discriminate.
  - intros (args & Hs & ->). now apply parse_function_line.
Qed.

(** X2.  The matcher returns a class declaration exactly for the lines
    made of whitespace, "class", whitespace and a name of word
    characters as long as it goes; its parameter list is always empty,
    whatever follows the name on the line. *)
Theorem class_declaration_iff (language line nm : jsstring)
        (ps : list jsstring) :
  parseFunctionOrClass line language
  = Some {| type := class; name := nm; params := ps |}
  <-> class_shape line nm /\ ps = [].
Proof.
  split.
  - intros H. apply parse_sound in H as [(args & _ & Ht & _)|(Hs & _ & Hp)].
    + discriminate.
    + split; [exact Hs|exact Hp].
  - intros (Hs & ->). now apply parse_class_line.
Qed.

(** X3.  The matcher returns null exactly for the lines that have
    neither the shape of a function line of the language nor that of a
    class line. *)
Theorem no_declaration_iff (language line : jsstring) :
  parseFunctionOrClass line language = None
  <-> (forall nm args,
          ~ function_shape (function_keyword language) line nm args)
      /\ (forall nm, ~ class_shape line nm).
Proof.
  split.
  - intros H. split.
    + intros nm args Hs.
      rewrite (parse_function_line _ _ _ _ Hs) in H. discriminate.
    + intros nm Hs.
      rewrite (parse_class_line language _ _ Hs) in H. discriminate.
  - intros [Hf Hc].
    destruct (parseFunctionOrClass line language) as [d|] eqn:E; [|reflexivity].
    apply parse_sound in E as [(args & Hs & _)|(Hs & _)].
    + exfalso. exact (Hf _ _ Hs).
    + exfalso. exact (Hc _ Hs).
Qed.

(** X4.  In every declaration the matcher returns, the name is a
    non-empty run of word characters, and every parameter is non-empty,
    has no whitespace at either end and holds neither a comma nor a
    closing parenthesis. *)
Theorem declaration_is_clean (language line : jsstring) (d : declaration) :
  parseFunctionOrClass line language = Some d ->
  name d <> [] /\ all is_word (name d) /\ Forall clean_param (params d).
Proof.
  intros H.
  apply parse_sound in H as [(args & Hs & _ & Hp)|(Hs & _ & Hp)]; rewrite Hp.
  - destruct Hs as (ws & ws1 & ws2 & tail & _ & _ & _ & _ & Hname & Hne & _ & Hargs).
    repeat split; auto. now apply parameters_clean.
  - destruct Hs as (ws & ws1 & tail & _ & _ & _ & _ & Hname & Hne & _).
    repeat split; auto.
Qed.

(** The theorem on a line with spaces around the parameters, a default
    value and a trailing comma. *)
Lemma declaration_is_clean_witness :
  let d := {| type := function; name := lit "area";
              params := [lit "width"; lit "height = 2"] |} in
  parseFunctionOrClass (lit "  def area( width ,height = 2 , ): pass") python
  = Some d
  /\ name d <> [] /\ all is_word (name d) /\ Forall clean_param (params d).
Proof.
  cbv zeta. split; [reflexivity|].
  exact (declaration_is_clean python
           (lit "  def area( width ,height = 2 , ): pass") _ eq_refl).
Defined.

(** X5.  A function line yields an empty parameter list exactly when
    the text between its parentheses holds nothing but whitespace and
    commas. *)
Theorem no_parameters_iff (language line nm args : jsstring) :
  function_shape (function_keyword language) line nm args ->
  exists d,
    parseFunctionOrClass line language = Some d
    /\ (params d = [] <-> all space_or_comma args).
Proof.
  intros Hs.
  exists {| type := function; name := nm; params := parameters args |}.
  split; [now apply parse_function_line|].
  cbn [params]. apply parameters_nil_iff.
Qed.

(** The theorem on a function whose parentheses hold a blank, a comma
    and a blank. *)
Lemma no_parameters_iff_witness :
  function_shape (function_keyword javascript)
                 (lit "function run( , ) {") (lit "run") (lit " , ")
  /\ exists d,
       parseFunctionOrClass (lit "function run( , ) {") javascript = Some d
       /\ (params d = [] <-> all space_or_comma (lit " , ")).
Proof.
  assert (Hs : function_shape (function_keyword javascript)
                 (lit "function run( , ) {") (lit "run") (lit " , ")).
  { exists [], (lit " "), [], (lit " {").
    split; [reflexivity|].
    repeat split; try discriminate; unfold all;
      repeat constructor. }
  split; [exact Hs|].
  exact (no_parameters_iff javascript _ _ _ Hs).
Defined.

End Matcher.

(** ** Facts about the templates *)

Module TemplateFacts.
Import JS Regex VSCode Extension Properties Shapes JSFacts EditorFacts RegexFacts.

Lemma single_line_app (a b : jsstring) :
  single_line a -> single_line b -> single_line (a ++ b).
Proof.
  unfold single_line. intros Ha Hb H.
  apply in_app_or in H as [H|H]; auto.
Qed.

Lemma split_lines_cons (a b : jsstring) :
  single_line a -> split LF (a ++ LF :: b) = a :: split LF b.
Proof.
  intros Ha. now rewrite split_app_sep, (split_no_sep LF a Ha).
Qed.

(** Joining single lines with line feeds and splitting again. *)
Lemma split_join_then (ls : list jsstring) (rest : jsstring) :
  Forall single_line ls -> ls <> [] ->
  split LF (join [LF] ls ++ LF :: rest) = ls ++ split LF rest.
Proof.
  induction ls as [|p ls IH]; intros Hall Hne; [contradiction|].
  inversion Hall as [|? ? Hp Hls]; subst.
  destruct ls as [|q ls].
  - simpl. now apply split_lines_cons.
  - change (join [LF] (p :: q :: ls)) with (p ++ [LF] ++ join [LF] (q :: ls)).
    rewrite <- !app_assoc. cbn [app].
    rewrite split_lines_cons by assumption.
    rewrite IH by (auto; discriminate). reflexivity.
Qed.

Lemma param_lines_single (f : jsstring -> jsstring) (ps : list jsstring) :
  (forall p, single_line p -> single_line (f p)) ->
  Forall single_line ps -> Forall single_line (map f ps).
Proof.
  intros Hf Hps. induction Hps; simpl; constructor; auto.
Qed.

Lemma param_line_A_single (p : jsstring) :
  single_line p -> single_line (param_line_A p).
Proof.
  intros Hp. unfold param_line_A.
  repeat apply single_line_app; auto; single_line_by_evaluation.
Qed.

Lemma param_line_B_single (p : jsstring) :
  single_line p -> single_line (param_line_B p).
Proof.
  intros Hp. unfold param_line_B.
  repeat apply single_line_app; auto; single_line_by_evaluation.
Qed.

(** The lines of the Family A template. *)
Lemma python_lines (nm : jsstring) (ps : list jsstring) :
  single_line nm -> Forall single_line ps ->
  split LF (generateDocstring python nm ps)
  = [triple_quote ++ nm ++ lit " description."; []]
    ++ map param_line_A ps
    ++ [lit ":return: DESCRIPTION"; triple_quote].
Proof.
  intros Hnm Hps. unfold generateDocstring. rewrite eqb_refl.
  assert (Hhead : single_line (triple_quote ++ nm ++ lit " description."))
    by (repeat apply single_line_app; auto; single_line_by_evaluation).
  assert (Hret : single_line (lit ":return: DESCRIPTION"))
    by single_line_by_evaluation.
  assert (Htq : single_line triple_quote) by single_line_by_evaluation.
  assert (Hnil : single_line []) by (intros []).
  assert (Htail : split LF (lit ":return: DESCRIPTION" ++ [LF] ++ triple_quote)
                  = [lit ":return: DESCRIPTION"; triple_quote]).
  { cbn [app]. rewrite split_lines_cons by assumption.
    now rewrite split_no_sep. }
  replace (triple_quote ++ nm ++ lit " description." ++ [LF; LF] ++
           join [LF] (map (fun p => lit ":param " ++ p ++ lit ": DESCRIPTION") ps) ++
           (if nonempty ps then [LF] else []) ++
           lit ":return: DESCRIPTION" ++ [LF] ++ triple_quote)
    with ((triple_quote ++ nm ++ lit " description.") ++ LF
          :: ([] ++ LF
              :: (join [LF] (map param_line_A ps) ++
                  (if nonempty ps then [LF] else []) ++
                  lit ":return: DESCRIPTION" ++ [LF] ++ triple_quote)))
    by (rewrite <- !app_assoc; reflexivity).
  rewrite split_lines_cons by assumption.
  rewrite split_lines_cons by assumption.
  destruct ps as [|p ps].
  - cbn [map join nonempty app]. do 2 f_equal; exact Htail.
  - cbn [nonempty]. change ([LF] ++ ?x) with (LF :: x).
    rewrite split_join_then;
      [|apply param_lines_single; [exact param_line_A_single|assumption]
       |discriminate].
    cbn [app]. do 2 f_equal; apply (f_equal (app _)); exact Htail.
Qed.

Lemma family_B_branch (language : jsstring) :
  language = javascript \/ language = typescript ->
  eqb language python = false
  /\ eqb language javascript || eqb language typescript = true.
Proof. intros [->| ->]; split; reflexivity. Qed.

(** The lines of the Family B template. *)
Lemma family_B_lines (language nm : jsstring) (ps : list jsstring) :
  language = javascript \/ language = typescript ->
  single_line nm -> Forall single_line ps ->
  split LF (generateDocstring language nm ps)
  = [lit "/**"; lit " * " ++ nm ++ lit " description."]
    ++ map param_line_B ps
    ++ [lit " * @returns {any} DESCRIPTION"; lit " */"].
Proof.
  intros HB Hnm Hps. unfold generateDocstring.
  destruct (family_B_branch language HB) as [-> ->].
  assert (Hopen : single_line (lit "/**")) by single_line_by_evaluation.
  assert (Hhead : single_line (lit " * " ++ nm ++ lit " description."))
    by (repeat apply single_line_app; auto; single_line_by_evaluation).
  assert (Hret : single_line (lit " * @returns {any} DESCRIPTION"))
    by single_line_by_evaluation.
  assert (Hclose : single_line (lit " */")) by single_line_by_evaluation.
  assert (Htail : split LF (lit " * @returns {any} DESCRIPTION" ++ [LF] ++ lit " */")
                  = [lit " * @returns {any} DESCRIPTION"; lit " */"]).
  { change ([LF] ++ ?x) with (LF :: x).
    rewrite split_lines_cons by assumption. now rewrite split_no_sep. }
  replace (lit "/**" ++ [LF] ++ lit " * " ++ nm ++ lit " description." ++ [LF] ++
           join [LF] (map (fun p => lit " * @param {any} " ++ p ++ lit " DESCRIPTION") ps) ++
           (if nonempty ps then [LF] else []) ++
           lit " * @returns {any} DESCRIPTION" ++ [LF] ++ lit " */")
    with (lit "/**" ++ LF
          :: ((lit " * " ++ nm ++ lit " description.") ++ LF
              :: (join [LF] (map param_line_B ps) ++
                  (if nonempty ps then [LF] else []) ++
                  lit " * @returns {any} DESCRIPTION" ++ [LF] ++ lit " */")))
    by (rewrite <- !app_assoc; reflexivity).
  rewrite split_lines_cons by assumption.
  rewrite split_lines_cons by assumption.
  destruct ps as [|p ps].
  - cbn [map join nonempty app]. do 2 f_equal; exact Htail.
  - cbn [nonempty]. change ([LF] ++ ?x) with (LF :: x) at 1.
    rewrite split_join_then;
      [|apply param_lines_single; [exact param_line_B_single|assumption]
       |discriminate].
    cbn [app]. do 2 f_equal; apply (f_equal (app _)); exact Htail.
Qed.

End TemplateFacts.

(** ** Facts about inserted blocks *)

Module BlockFacts.
Import JS Regex VSCode Extension Properties Shapes JSFacts EditorFacts
       RegexFacts TemplateFacts.

(** The document after an insertion above a single line: the lines
    above, the block, the target line and the lines below. *)
Lemma insert_block (editor : TextEditor) (n : nat) (lineText docstring : jsstring) :
  lineAt (document editor) n = Some lineText ->
  single_line lineText ->
  exists editor',
    insertDocstringAtLine editor n docstring = Some editor'
    /\ languageId (document editor') = languageId (document editor)
    /\ length (applied editor') = S (length (applied editor))
    /\ lines (document editor')
       = firstn n (lines (document editor))
         ++ map (app (indentation lineText)) (split LF docstring)
         ++ lineText :: skipn (S n) (lines (document editor)).
Proof.
  intros Hl Hs.
  destruct (insertDocstringAtLine_lines editor n lineText docstring Hl Hs)
    as (e' & He & Hlang & Happ & Hlines).
  exists e'. repeat split; auto.
  - rewrite Happ, length_app. simpl. lia.
  - rewrite Hlines. unfold reindented.
    rewrite split_reindent by now apply indentation_single_line.
    now rewrite (skipn_lineAt _ _ _ Hl).
Qed.

(** Reading a line of the middle part of a document. *)
Lemma nth_error_middle {A} (above block below : list A) (n j : nat) :
  length above = n ->
  nth_error (above ++ block ++ below) (n + j)
  = nth_error (block ++ below) j.
Proof.
  intros <-. rewrite nth_error_app2 by lia. f_equal. lia.
Qed.

Lemma length_firstn_lineAt (d : TextDocument) (n : nat) (l : jsstring) :
  lineAt d n = Some l -> length (firstn n (lines d)) = n.
Proof.
  intros H. apply lineAt_lt in H. unfold lineCount in H.
  rewrite length_firstn. lia.
Qed.

Lemma includes_app_left (a s needle : jsstring) :
  includes s needle = true -> includes (a ++ s) needle = true.
Proof.
  intros H. induction a as [|c a IH]; [exact H|].
  cbn [app includes]. rewrite IH. apply orb_true_r.
Qed.

Lemma includes_self (needle s : jsstring) : includes (needle ++ s) needle = true.
Proof.
  destruct needle as [|c needle]; [destruct s; reflexivity|].
  cbn [app includes].
  change (c :: needle ++ s) with ((c :: needle) ++ s).
  now rewrite startsWith_app.
Qed.

(** Whitespace in front of a text hides no needle that starts with
    another character. *)
Lemma includes_behind_space (a s : jsstring) (c : N) (needle : jsstring) :
  all is_space a -> is_space c = false ->
  includes (a ++ s) (c :: needle) = includes s (c :: needle).
Proof.
  intros Ha Hc. induction Ha as [|d a Hd Ha IH]; [reflexivity|].
  cbn [app includes startsWith].
  destruct (N.eqb_spec c d) as [->|_]; [congruence|].
  cbn [andb orb]. exact IH.
Qed.

Lemma no_marker_behind_space (a s : jsstring) :
  all is_space a -> ~ has_marker s -> ~ has_marker (a ++ s).
Proof.
  unfold has_marker, triple_quote, block_open. intros Ha Hs [H|H]; apply Hs.
  - left. now rewrite includes_behind_space in H.
  - right. change (lit "/**") with (47%N :: lit "**") in *.
    now rewrite includes_behind_space in H.
Qed.

Lemma indentation_all_space (l : jsstring) : all is_space (indentation l).
Proof. apply takeWhile_all. Qed.

Lemma dropWhile_app_all (cls : N -> bool) (a x : jsstring) :
  all cls a -> dropWhile cls (a ++ x) = dropWhile cls x.
Proof.
  intros Ha. induction Ha as [|c a Hc Ha IH]; [reflexivity|].
  cbn [app dropWhile]. now rewrite Hc.
Qed.

(** A declaration line goes on, after its whitespace, with "def",
    "function" or "class". *)
Lemma parse_needs_keyword (language line : jsstring) (d : declaration) :
  parseFunctionOrClass line language = Some d ->
  exists c rest,
    dropWhile is_space line = c :: rest
    /\ (c = 100 \/ c = 102 \/ c = 99)%N.
Proof.
  intros H. apply parse_sound in H as [(args & Hs & _)|(Hs & _)].
  - unfold function_keyword in Hs.
    destruct (eqb language python);
      (apply function_shape_keyword in Hs as [rest Hr];
       [|reflexivity|discriminate]); rewrite Hr.
    + exists 100%N, (lit "ef" ++ rest). split; [reflexivity|auto].
    + exists 102%N, (lit "unction" ++ rest). split; [reflexivity|auto].
  - apply class_shape_keyword in Hs as [rest Hr]. rewrite Hr.
    eexists _, _. split; [reflexivity|auto].
Qed.

(** A line that is blank or goes on with another character is none. *)
Lemma not_a_declaration (language indent text : jsstring) :
  all is_space indent ->
  match dropWhile is_space text with
  | [] => True
  | c :: _ => c <> 100%N /\ c <> 102%N /\ c <> 99%N
  end ->
  parseFunctionOrClass (indent ++ text) language = None.
Proof.
  intros Hi Ht.
  destruct (parseFunctionOrClass (indent ++ text) language) as [d|] eqn:E;
    [|reflexivity].
  apply parse_needs_keyword in E as (c & rest & Hdrop & Hc).
  rewrite dropWhile_app_all in Hdrop by assumption.
  rewrite Hdrop in Ht. destruct Ht as (H1 & H2 & H3).
  destruct Hc as [->|[->| ->]]; congruence.
Qed.

(** Which lines the check of a declaration reads when three or more
    lines end with it. *)
Lemma window_of_three (d : TextDocument) (above below : list jsstring)
      (l2 l1 l0 : jsstring) (n : nat) :
  lines d = above ++ [l2; l1; l0] ++ below ->
  n = length above + 2 ->
  lineAt d n = Some l0
  /\ (marker_in_window d n <-> has_marker l2 \/ has_marker l1 \/ has_marker l0).
Proof.
  intros Hlines ->.
  assert (Hat : forall j, lineAt d (length above + j)
                          = nth_error ([l2; l1; l0] ++ below) j).
  { intros j. unfold lineAt. rewrite Hlines.
    rewrite nth_error_app2 by lia. f_equal. lia. }
  split; [now rewrite Hat|].
  unfold marker_in_window. split.
  - intros (k & l & Hk & Hl & Hm).
    assert (Hj : k = length above + 0 \/ k = length above + 1
                 \/ k = length above + 2) by lia.
    destruct Hj as [->|[->| ->]]; rewrite Hat in Hl; injection Hl as <-; auto.
  - intros [H|[H|H]].
    + exists (length above + 0), l2. rewrite Hat. repeat split; auto; lia.
    + exists (length above + 1), l1. rewrite Hat. repeat split; auto; lia.
    + exists (length above + 2), l0. rewrite Hat. repeat split; auto; lia.
Qed.

(** A turn of the loop on a line with a marker in its window. *)
Lemma iteration_skips (language : jsstring) (n : nat) (editor : TextEditor)
      (l : jsstring) :
  lineAt (document editor) n = Some l ->
  marker_in_window (document editor) n ->
  iteration language n editor = Some editor.
Proof.
  intros Hl Hm. unfold iteration. rewrite Hl.
  destruct (parseFunctionOrClass l language); [|reflexivity].
  destruct (hasDocstring_window _ _ (lineAt_lt _ _ _ Hl)) as (b & -> & Hiff).
  apply Hiff in Hm. now rewrite Hm.
Qed.

(** A turn of the loop on a declaration without marker in its window. *)
Lemma iteration_inserts (language : jsstring) (n : nat) (editor : TextEditor)
      (l : jsstring) (parsed : declaration) :
  lineAt (document editor) n = Some l ->
  parseFunctionOrClass l language = Some parsed ->
  ~ marker_in_window (document editor) n ->
  iteration language n editor
  = insertDocstringAtLine editor n
      (generateDocstring language (name parsed) (params parsed)).
Proof.
  intros Hl Hp Hm. unfold iteration. rewrite Hl, Hp.
  destruct (hasDocstring_window _ _ (lineAt_lt _ _ _ Hl)) as ([|] & -> & Hiff);
    [|reflexivity].
  exfalso. apply Hm. now apply Hiff.
Qed.

(** The lines of a re-indented template are no declarations. *)
Lemma block_line_not_declaration (language indent nm : jsstring)
      (ps : list jsstring) (l : jsstring) :
  all is_space indent -> single_line nm -> Forall single_line ps ->
  In l (map (app indent) (split LF (generateDocstring language nm ps))) ->
  parseFunctionOrClass l language = None.
Proof.
  intros Hi Hnm Hps Hin.
  apply in_map_iff in Hin as (t & <- & Ht).
  apply not_a_declaration; [exact Hi|].
  destruct (eqb language python) eqn:Epy.
  - apply eqb_eq in Epy. subst language.
    rewrite (python_lines nm ps Hnm Hps) in Ht.
    apply in_app_or in Ht as [Ht|Ht]; [|apply in_app_or in Ht as [Ht|Ht]].
    + destruct Ht as [<-|[<-|[]]]; simpl; [|exact I].
      repeat split; discriminate.
    + apply in_map_iff in Ht as (p & <- & _). simpl. repeat split; discriminate.
    + destruct Ht as [<-|[<-|[]]]; simpl; repeat split; discriminate.
  - destruct (eqb language javascript || eqb language typescript) eqn:EB.
    + assert (HB : language = javascript \/ language = typescript).
      { apply orb_true_iff in EB as [E|E]; apply eqb_eq in E; auto. }
      rewrite (family_B_lines language nm ps HB Hnm Hps) in Ht.
      apply in_app_or in Ht as [Ht|Ht]; [|apply in_app_or in Ht as [Ht|Ht]].
      * destruct Ht as [<-|[<-|[]]]; simpl; repeat split; discriminate.
      * apply in_map_iff in Ht as (p & <- & _). simpl. repeat split; discriminate.
      * destruct Ht as [<-|[<-|[]]]; simpl; repeat split; discriminate.
    + unfold generateDocstring in Ht. rewrite Epy, EB in Ht.
      destruct Ht as [<-|[]]. exact I.
Qed.

(** Name and parameters of a declaration on a single line hold no line
    feed either. *)
Lemma parse_single_line (language line : jsstring) (d : declaration) :
  parseFunctionOrClass line language = Some d ->
  single_line line ->
  single_line (name d) /\ Forall single_line (params d).
Proof.
  unfold single_line. intros H Hs.
  apply parse_sound in H as [(args & Hshape & _ & Hp)|(Hshape & _ & Hp)];
    rewrite Hp.
  - destruct Hshape as (ws & ws1 & ws2 & tail & -> & _).
    split.
    + intros Hin. apply Hs.
      do 3 (apply in_or_app; right). apply in_or_app. now left.
    + unfold parameters. apply Forall_forall. intros p Hin.
      apply filter_In in Hin as [Hin _].
      apply in_map_iff in Hin as (piece & <- & Hpiece).
      intros Hc. apply trim_incl in Hc.
      apply (split_incl COMMA args piece _ Hpiece) in Hc.
      apply Hs. do 6 (apply in_or_app; right). apply in_or_app. now left.
  - destruct Hshape as (ws & ws1 & tail & -> & _).
    split; [|constructor].
    intros Hin. apply Hs.
    do 3 (apply in_or_app; right). apply in_or_app. now left.
Qed.

End BlockFacts.

(** ** The templates and the blocks they become *)

Module Blocks.
Import JS Regex VSCode Extension Properties Shapes JSFacts EditorFacts
       RegexFacts TemplateFacts BlockFacts.

(** X6.  For a name and parameters without line feed, the Family A
    template has 4 + n lines for n parameters: the triple quote with
    "<name> description.", an empty line, one ":param <p>: DESCRIPTION"
    line per parameter in the order given, ":return: DESCRIPTION" and
    the closing triple quote. *)
Theorem python_template_lines (nm : jsstring) (ps : list jsstring) :
  single_line nm -> Forall single_line ps ->
  split LF (generateDocstring python nm ps)
  = [triple_quote ++ nm ++ lit " description."; []]
    ++ map param_line_A ps
    ++ [lit ":return: DESCRIPTION"; triple_quote]
  /\ length (split LF (generateDocstring python nm ps)) = 4 + length ps.
Proof.
  intros Hnm Hps. rewrite (python_lines nm ps Hnm Hps).
  split; [reflexivity|].
  rewrite !length_app, length_map. simpl. lia.
Qed.

(** The theorem on three parameters. *)
Lemma python_template_lines_witness :
  single_line (lit "area")
  /\ Forall single_line [lit "self"; lit "width"; lit "height"]
  /\ length (split LF (generateDocstring python (lit "area")
                         [lit "self"; lit "width"; lit "height"])) = 7.
Proof.
  assert (Hnm : single_line (lit "area")) by single_line_by_evaluation.
  assert (Hps : Forall single_line [lit "self"; lit "width"; lit "height"])
    by (repeat constructor; single_line_by_evaluation).
  split; [exact Hnm|]. split; [exact Hps|].
  exact (proj2 (python_template_lines _ _ Hnm Hps)).
Defined.

(** X7.  For javascript and for typescript, and a name and parameters
    without line feed, the template has 4 + n lines for n parameters:
    the block opener, " * <name> description.", one
    " * @param {any} <p> DESCRIPTION" line per parameter in the order
    given, " * @returns {any} DESCRIPTION" and the closing " */". *)
Theorem family_B_template_lines (language nm : jsstring) (ps : list jsstring) :
  language = javascript \/ language = typescript ->
  single_line nm -> Forall single_line ps ->
  split LF (generateDocstring language nm ps)
  = [lit "/**"; lit " * " ++ nm ++ lit " description."]
    ++ map param_line_B ps
    ++ [lit " * @returns {any} DESCRIPTION"; lit " */"]
  /\ length (split LF (generateDocstring language nm ps)) = 4 + length ps.
Proof.
  intros HB Hnm Hps. rewrite (family_B_lines language nm ps HB Hnm Hps).
  split; [reflexivity|].
  rewrite !length_app, length_map. simpl. lia.
Qed.

(** The theorem on a typescript function of two parameters. *)
Lemma family_B_template_lines_witness :
  single_line (lit "add")
  /\ Forall single_line [lit "a: number"; lit "b: number"]
  /\ length (split LF (generateDocstring typescript (lit "add")
                         [lit "a: number"; lit "b: number"])) = 6.
Proof.
  assert (Hnm : single_line (lit "add")) by single_line_by_evaluation.
  assert (Hps : Forall single_line [lit "a: number"; lit "b: number"])
    by (repeat constructor; single_line_by_evaluation).
  split; [exact Hnm|]. split; [exact Hps|].
  exact (proj2 (family_B_template_lines typescript _ _ (or_intror eq_refl) Hnm Hps)).
Defined.

(** X8.  After the Family A template has been inserted above a
    declaration, the declaration stands 4 + n lines lower with the
    closing triple quote right above it: a marker is in its window, and
    a later turn of the loop on it inserts nothing, whatever the
    language. *)
Theorem python_block_is_seen (editor : TextEditor) (n : nat)
        (lineText nm : jsstring) (ps : list jsstring) :
  lineAt (document editor) n = Some lineText ->
  single_line lineText -> single_line nm -> Forall single_line ps ->
  exists editor',
    insertDocstringAtLine editor n (generateDocstring python nm ps) = Some editor'
    /\ lineAt (document editor') (n + (4 + length ps)) = Some lineText
    /\ lineAt (document editor') (n + (3 + length ps))
       = Some (indentation lineText ++ triple_quote)
    /\ marker_in_window (document editor') (n + (4 + length ps))
    /\ forall language,
         iteration language (n + (4 + length ps)) editor' = Some editor'.
Proof.
  intros Hl Hs Hnm Hps.
  destruct (insert_block editor n lineText (generateDocstring python nm ps) Hl Hs)
    as (e' & He & _ & _ & Hlines).
  rewrite (python_lines nm ps Hnm Hps) in Hlines.
  set (indent := indentation lineText) in *.
  set (above := firstn n (lines (document editor))
                ++ map (app indent)
                     ([triple_quote ++ nm ++ lit " description."; []]
                      ++ map param_line_A ps)).
  assert (Hshape : lines (document e')
                   = above ++ [indent ++ lit ":return: DESCRIPTION";
                               indent ++ triple_quote; lineText]
                     ++ skipn (S n) (lines (document editor))).
  { rewrite Hlines. subst above.
    rewrite (app_assoc [_; _] (map param_line_A ps)), map_app.
    rewrite <- !app_assoc. reflexivity. }
  assert (Hlen : length above = n + (2 + length ps)).
  { subst above. rewrite length_app, !length_map, length_app, length_map.
    rewrite (length_firstn_lineAt _ _ _ Hl). simpl. lia. }
  destruct (window_of_three (document e') above _ _ _ _
              (n + (4 + length ps)) Hshape) as [Hat Hwin]; [lia|].
  assert (Hmark : marker_in_window (document e') (n + (4 + length ps))).
  { apply Hwin. right; left. left. apply includes_app_left.
    rewrite <- (app_nil_r triple_quote) at 1. apply includes_self. }
  exists e'. repeat split; auto.
  - unfold lineAt. rewrite Hshape.
    replace (n + (3 + length ps)) with (length above + 1) by lia.
    rewrite nth_error_app2 by lia.
    replace (length above + 1 - length above) with 1 by lia. reflexivity.
  - intros language. now apply (iteration_skips language _ _ lineText).
Qed.

(** The theorem on a method of two parameters indented by a tab. *)
Lemma python_block_is_seen_witness :
  let editor := open python [lit "class A:"; [9%N] ++ lit "def f(self, x):"] in
  lineAt (document editor) 1 = Some ([9%N] ++ lit "def f(self, x):")
  /\ exists editor',
       insertDocstringAtLine editor 1
         (generateDocstring python (lit "f") [lit "self"; lit "x"]) = Some editor'
       /\ lineAt (document editor') 7 = Some ([9%N] ++ lit "def f(self, x):")
       /\ marker_in_window (document editor') 7.
Proof.
  cbv zeta. split; [reflexivity|].
  destruct (python_block_is_seen
              (open python [lit "class A:"; [9%N] ++ lit "def f(self, x):"]) 1
              ([9%N] ++ lit "def f(self, x):") (lit "f") [lit "self"; lit "x"]
              eq_refl)
    as (e' & He & Hat & Hq & Hm & _);
    try single_line_by_evaluation.
  { repeat constructor; single_line_by_evaluation. }
  exists e'. split; [exact He|]. split; [exact Hat|exact Hm].
Defined.



(** X10.  No line of a block the generator inserts is a declaration for
    the matcher: for every language, every name and parameters without
    line feed and every indentation, each line of the re-indented
    template parses to null. *)
Theorem block_lines_are_no_declarations (language indent nm : jsstring)
        (ps : list jsstring) (l : jsstring) :
  all is_space indent -> single_line nm -> Forall single_line ps ->
  In l (map (app indent) (split LF (generateDocstring language nm ps))) ->
  parseFunctionOrClass l language = None.
Proof. apply block_line_not_declaration. Qed.

(** The theorem on the lines of a Family A block indented by four
    spaces, among them the line of a parameter called "def". *)
Lemma block_lines_are_no_declarations_witness :
  all is_space (lit "    ")
  /\ In (lit "    :param def: DESCRIPTION")
        (map (app (lit "    "))
             (split LF (generateDocstring python (lit "f") [lit "def"])))
  /\ parseFunctionOrClass (lit "    :param def: DESCRIPTION") python = None.
Proof.
  assert (Hi : all is_space (lit "    ")) by (repeat constructor).
  assert (Hin : In (lit "    :param def: DESCRIPTION")
                   (map (app (lit "    "))
                        (split LF (generateDocstring python (lit "f") [lit "def"]))))
    by (vm_compute; auto).
  split; [exact Hi|]. split; [exact Hin|].
  apply (block_lines_are_no_declarations python (lit "    ") (lit "f") [lit "def"]);
    [exact Hi | single_line_by_evaluation
     | repeat constructor; single_line_by_evaluation | exact Hin].
Defined.

End Blocks.

(** ** Facts about the effects of the loop *)

Module LoopFacts.
Import JS Regex VSCode Extension Properties Shapes Effects JSFacts EditorFacts
       RegexFacts TemplateFacts BlockFacts.

(** A turn of the loop leaves the editor alone or is one insertion. *)
Lemma iteration_cases (language : jsstring) (n : nat) (e e' : TextEditor) :
  iteration language n e = Some e' ->
  e' = e
  \/ exists lineText docstring,
       lineAt (document e) n = Some lineText
       /\ insertDocstringAtLine e n docstring = Some e'.
Proof.
  unfold iteration.
  destruct (lineAt (document e) n) as [lineText|] eqn:Hl; [|discriminate].
  destruct (parseFunctionOrClass lineText language) as [parsed|];
    [|intros [= <-]; now left].
  destruct (hasDocstring (document e) n) as [[|]|];
    [intros [= <-]; now left| |discriminate].
  intros H. right. eauto.
Qed.

(** The edits of a turn: none, or one at the start of the line. *)
Lemma iteration_log (language : jsstring) (n : nat) (e e' : TextEditor) :
  iteration language n e = Some e' ->
  languageId (document e') = languageId (document e)
  /\ exists news,
       applied e' = applied e ++ news
       /\ length news <= 1
       /\ Forall (whole_lines_edit n (S n)) news.
Proof.
  intros H. apply iteration_cases in H as [->|(lineText & docstring & Hl & H)].
  - split; [reflexivity|]. exists []. rewrite app_nil_r. auto.
  - rewrite (insertDocstringAtLine_eq _ _ _ _ Hl) in H. injection H as <-.
    split; [reflexivity|]. cbn [applied]. eexists. split; [reflexivity|].
    split; [simpl; lia|]. repeat constructor; cbn [fst snd line character]; try lia.
    eexists. reflexivity.
Qed.

Lemma whole_lines_edit_wider (lo hi lo' hi' : nat) (ed : Position * jsstring) :
  lo' <= lo -> hi <= hi' ->
  whole_lines_edit lo hi ed -> whole_lines_edit lo' hi' ed.
Proof. unfold whole_lines_edit. intros ? ? (? & ? & ?). repeat split; auto; lia. Qed.

(** The edits of the loop: at most one per turn, each at the start of
    the line of its turn. *)
Lemma scan_log (language : jsstring) (r : nat) :
  forall n e e',
    scan language r n e = Some e' ->
    languageId (document e') = languageId (document e)
    /\ exists news,
         applied e' = applied e ++ news
         /\ length news <= r
         /\ Forall (whole_lines_edit n (n + r)) news
         /\ StronglySorted lt (edit_lines news).
Proof.
  induction r as [|r IH]; intros n e e' H; simpl in H.
  - injection H as <-. split; [reflexivity|]. exists [].
    rewrite app_nil_r. repeat split; auto. constructor.
  - destruct (iteration language n e) as [e1|] eqn:E1; [|discriminate].
    apply iteration_log in E1 as (Hlang1 & news1 & Happ1 & Hlen1 & Hall1).
    apply IH in H as (Hlang2 & news2 & Happ2 & Hlen2 & Hall2 & Hsorted2).
    split; [congruence|].
    exists (news1 ++ news2). rewrite Happ2, Happ1, app_assoc.
    split; [reflexivity|]. split; [rewrite length_app; lia|].
    split.
    + apply Forall_app. split.
      * eapply Forall_impl; [|exact Hall1].
        intros ed. apply whole_lines_edit_wider; lia.
      * eapply Forall_impl; [|exact Hall2].
        intros ed. apply whole_lines_edit_wider; lia.
    + unfold edit_lines. rewrite map_app.
      destruct news1 as [|ed1 [|ed2 news1]]; [exact Hsorted2| |simpl in Hlen1; lia].
      inversion Hall1 as [|? ? (_ & Hline & _) _]; subst.
      simpl. constructor; [exact Hsorted2|].
      apply Forall_map.
      eapply Forall_impl; [|exact Hall2].
      intros ed (_ & Hl & _). simpl. lia.
Qed.

(** *** Lines are kept *)

Lemma subseq_refl {A} (l : list A) : subseq l l.
Proof. induction l; constructor; auto. Qed.

Lemma subseq_add_front {A} (b l : list A) : subseq l (b ++ l).
Proof. induction b; simpl; [apply subseq_refl|now constructor]. Qed.

Lemma subseq_app_keep {A} (a l1 l2 : list A) :
  subseq l1 l2 -> subseq (a ++ l1) (a ++ l2).
Proof. intros H. induction a; simpl; [exact H|now constructor]. Qed.

Lemma subseq_trans {A} (l1 l2 l3 : list A) :
  subseq l1 l2 -> subseq l2 l3 -> subseq l1 l3.
Proof.
  intros H12 H23. revert l1 H12.
  induction H23 as [|x l2 l3 H IH|x l2 l3 H IH]; intros l1 H12.
  - exact H12.
  - inversion H12; subst; constructor; auto.
  - constructor; auto.
Qed.

Lemma well_formed_line (d : TextDocument) (n : nat) (l : jsstring) :
  well_formed d -> lineAt d n = Some l -> single_line l.
Proof.
  unfold well_formed, lineAt. intros Hwf Hl.
  rewrite Forall_forall in Hwf. apply Hwf. eapply nth_error_In; eassumption.
Qed.

(** An insertion into a well-formed document: the lines that were there
    stay, in their order, and as many lines are added as the text has
    line feeds. *)
Lemma insertion_keeps_lines (e e' : TextEditor) (n : nat) (docstring : jsstring) :
  well_formed (document e) ->
  insertDocstringAtLine e n docstring = Some e' ->
  subseq (lines (document e)) (lines (document e'))
  /\ exists ed,
       applied e' = applied e ++ [ed]
       /\ lineCount (document e')
          = lineCount (document e) + count_occ N.eq_dec (snd ed) LF.
Proof.
  intros Hwf H.
  destruct (lineAt (document e) n) as [lineText|] eqn:Hl;
    [|unfold insertDocstringAtLine in H; rewrite Hl in H; discriminate].
  pose proof (well_formed_line _ _ _ Hwf Hl) as Hs.
  destruct (insertDocstringAtLine_lines e n lineText docstring Hl Hs)
    as (e1 & He1 & _ & Happ & Hlines).
  rewrite He1 in H. injection H as <-.
  split.
  - rewrite Hlines.
    rewrite <- (firstn_skipn n (lines (document e))) at 1.
    apply subseq_app_keep, subseq_add_front.
  - eexists. split; [exact Happ|]. cbn [snd].
    unfold lineCount. rewrite Hlines.
    rewrite !length_app, length_split, count_occ_app.
    rewrite <- (firstn_skipn n (lines (document e))) at 3.
    rewrite length_app. simpl. lia.
Qed.

Lemma line_feeds_app (a b : list (Position * jsstring)) :
  line_feeds (a ++ b) = line_feeds a + line_feeds b.
Proof. unfold line_feeds. now rewrite map_app, list_sum_app. Qed.

(** The loop on a well-formed document. *)
Lemma scan_keeps_lines (language : jsstring) (r : nat) :
  forall n e e',
    well_formed (document e) ->
    scan language r n e = Some e' ->
    subseq (lines (document e)) (lines (document e'))
    /\ exists news,
         applied e' = applied e ++ news
         /\ lineCount (document e') = lineCount (document e) + line_feeds news.
Proof.
  induction r as [|r IH]; intros n e e' Hwf H; simpl in H.
  - injection H as <-. split; [apply subseq_refl|].
    exists []. rewrite app_nil_r. split; [reflexivity|]. unfold line_feeds. simpl. lia.
  - destruct (iteration language n e) as [e1|] eqn:E1; [|discriminate].
    pose proof (iteration_well_formed _ _ _ _ Hwf E1) as Hwf1.
    apply (IH _ _ _ Hwf1) in H as (Hsub2 & news2 & Happ2 & Hcount2).
    apply iteration_cases in E1 as [->|(lineText & docstring & Hl & E1)].
    + split; [exact Hsub2|]. exists news2. auto.
    + apply (insertion_keeps_lines _ _ _ _ Hwf) in E1
        as (Hsub1 & ed & Happ1 & Hcount1).
      split; [eapply subseq_trans; eassumption|].
      exists ([ed] ++ news2). rewrite Happ2, Happ1, <- app_assoc.
      split; [reflexivity|].
      rewrite line_feeds_app, Hcount2, Hcount1.
      change (line_feeds [ed]) with (count_occ N.eq_dec (snd ed) LF + 0). lia.
Qed.

(** *** Turns of the loop, one after the other *)

Lemma scan_app (language : jsstring) (r1 r2 : nat) :
  forall n e,
    scan language (r1 + r2) n e
    = match scan language r1 n e with
      | Some e1 => scan language r2 (n + r1) e1
      | None => None
      end.
Proof.
  induction r1 as [|r1 IH]; intros n e; simpl.
  - now rewrite Nat.add_0_r.
  - destruct (iteration language n e) as [e1|]; [|reflexivity].
    rewrite IH. now rewrite Nat.add_succ_r.
Qed.

(** The loop walks over lines that are no declarations. *)
Lemma scan_non_declarations (language : jsstring) (e : TextEditor) (r : nat) :
  forall n,
    (forall k, n <= k < n + r ->
       exists l, lineAt (document e) k = Some l
                 /\ parseFunctionOrClass l language = None) ->
    scan language r n e = Some e.
Proof.
  induction r as [|r IH]; intros n H; simpl; [reflexivity|].
  destruct (H n) as (l & Hl & Hp); [lia|].
  unfold iteration. rewrite Hl, Hp. apply IH.
  intros k Hk. apply H. lia.
Qed.

Lemma firstn_exact {A} (p rest : list A) : firstn (length p) (p ++ rest) = p.
Proof. induction p; simpl; [now destruct rest|now f_equal]. Qed.

Lemma skipn_exact {A} (p rest : list A) : skipn (length p) (p ++ rest) = rest.
Proof. induction p; simpl; auto. Qed.

Lemma nth_error_exact {A} (p rest : list A) (x : A) :
  nth_error (p ++ x :: rest) (length p) = Some x.
Proof. induction p; simpl; auto. Qed.

Lemma has_marker_nil : ~ has_marker [].
Proof. intros [H|H]; discriminate. Qed.

Lemma indentation_no_marker (l : jsstring) : ~ has_marker (indentation l).
Proof.
  rewrite <- (app_nil_r (indentation l)).
  apply no_marker_behind_space; [apply indentation_all_space|apply has_marker_nil].
Qed.

(** *** A language without template *)

Section Flood.

Variables (language lineText : jsstring) (parsed : declaration).
Variables (above below : list jsstring).

Hypothesis Hlanguage : without_template language.
Hypothesis Hparsed : parseFunctionOrClass lineText language = Some parsed.
Hypothesis Hsingle : single_line lineText.

Hypothesis Hwindow :
  forall d, lines d = flooded_lines above below lineText 0 -> ~ marker_in_window d (length above).

Lemma flooded_lineAt (d : TextDocument) (j : nat) :
  lines d = flooded_lines above below lineText j -> lineAt d (length above + j) = Some lineText.
Proof.
  intros H. unfold lineAt. rewrite H. unfold flooded_lines.
  rewrite app_assoc.
  replace (length above + j) with (length (above ++ repeat (indentation lineText) j))
    by (rewrite length_app, repeat_length; lia).
  apply nth_error_exact.
Qed.

Lemma flooded_window (d : TextDocument) (j : nat) :
  lines d = flooded_lines above below lineText j -> ~ marker_in_window d (length above + j).
Proof.
  intros H (k & l & Hk & Hl & Hm).
  set (d0 := {| languageId := languageId d; lines := flooded_lines above below lineText 0 |}).
  assert (H0 : ~ marker_in_window d0 (length above)) by now apply Hwindow.
  unfold lineAt in Hl. rewrite H in Hl. unfold flooded_lines in Hl.
  destruct (Nat.lt_ge_cases k (length above)) as [Hlt|Hge].
  - rewrite nth_error_app1 in Hl by assumption.
    apply H0. exists k, l. repeat split; [lia|lia| |exact Hm].
    unfold lineAt, d0, flooded_lines. cbn [lines]. now rewrite nth_error_app1.
  - rewrite nth_error_app2 in Hl by assumption.
    destruct (Nat.lt_ge_cases (k - length above) j) as [Hj|Hj].
    + rewrite nth_error_app1 in Hl by (rewrite repeat_length; lia).
      apply nth_error_In, repeat_spec in Hl. subst l.
      now apply (indentation_no_marker lineText).
    + rewrite nth_error_app2 in Hl by (rewrite repeat_length; lia).
      rewrite repeat_length in Hl.
      replace (k - length above - j) with 0 in Hl by lia.
      injection Hl as <-.
      apply H0. exists (length above), lineText.
      repeat split; [lia|lia| |exact Hm].
      unfold lineAt, d0, flooded_lines. cbn [lines repeat app].
      apply nth_error_exact.
Qed.

(** One turn on the declaration: one more line of indentation. *)
Lemma flood_step (e : TextEditor) (j : nat) :
  lines (document e) = flooded_lines above below lineText j ->
  exists e1,
    iteration language (length above + j) e = Some e1
    /\ lines (document e1) = flooded_lines above below lineText (S j)
    /\ length (applied e1) = S (length (applied e)).
Proof.
  intros H.
  pose proof (flooded_lineAt _ _ H) as Hl.
  rewrite (iteration_inserts language _ e lineText parsed Hl Hparsed
             (flooded_window _ _ H)).
  destruct Hlanguage as (Hp & Hj & Ht).
  rewrite (Orchestration.generateDocstring_unknown language _ _ Hp Hj Ht).
  destruct (insert_block e (length above + j) lineText [] Hl Hsingle)
    as (e1 & He1 & _ & Hlen & Hlines).
  exists e1. repeat split; auto.
  rewrite Hlines, H. unfold flooded_lines.
  rewrite (app_assoc above).
  replace (length above + j) with (length (above ++ repeat (indentation lineText) j))
    by (rewrite length_app, repeat_length; lia).
  rewrite firstn_exact.
  replace (S (length (above ++ repeat (indentation lineText) j)))
    with (length ((above ++ repeat (indentation lineText) j) ++ [lineText]))
    by (rewrite !length_app; simpl; lia).
  replace ((above ++ repeat (indentation lineText) j) ++ lineText :: below)
    with (((above ++ repeat (indentation lineText) j) ++ [lineText]) ++ below)
    by (rewrite <- !app_assoc; reflexivity).
  rewrite skipn_exact.
  cbn [split map]. rewrite app_nil_r.
  rewrite <- !app_assoc. f_equal.
  change (repeat (indentation lineText) (S j)) with (indentation lineText :: repeat (indentation lineText) j).
  rewrite repeat_cons. rewrite <- !app_assoc. reflexivity.
Qed.

(** [r] turns on the declaration: [r] more lines of indentation. *)
Lemma flood (r : nat) :
  forall j e,
    lines (document e) = flooded_lines above below lineText j ->
    exists e',
      scan language r (length above + j) e = Some e'
      /\ lines (document e') = flooded_lines above below lineText (j + r)
      /\ length (applied e') = length (applied e) + r.
Proof.
  induction r as [|r IH]; intros j e H; simpl.
  - exists e. rewrite !Nat.add_0_r. auto.
  - destruct (flood_step e j H) as (e1 & -> & H1 & Hlen1).
    destruct (IH (S j) e1 H1) as (e' & He' & Hlines & Hlen).
    exists e'. rewrite Nat.add_succ_r in He'.
    repeat split; [exact He'| |lia].
    rewrite Hlines. f_equal. lia.
Qed.

End Flood.

Lemma marker_in_window_lines (d d' : TextDocument) (n : nat) :
  lines d = lines d' -> marker_in_window d n -> marker_in_window d' n.
Proof.
  unfold marker_in_window, lineAt. intros H (k & l & Hk & Hl & Hm).
  exists k, l. rewrite <- H. auto.
Qed.

(** *** Family B: the loop and its own blocks *)

Lemma concat_repeat_snoc {A} (b : list A) (j : nat) :
  concat (repeat b (S j)) = concat (repeat b j) ++ b.
Proof.
  induction j as [|j IH]; simpl; [now rewrite app_nil_r|].
  simpl in IH. rewrite <- app_assoc. f_equal. exact IH.
Qed.

Lemma length_concat_repeat {A} (b : list A) (j : nat) :
  length (concat (repeat b j)) = j * length b.
Proof.
  induction j as [|j IH]; simpl; [reflexivity|].
  rewrite length_app, IH. reflexivity.
Qed.

Section Copies.

Variables (language lineText : jsstring) (parsed : declaration).
Variables (above below : list jsstring).

Hypothesis HB : language = javascript \/ language = typescript.
Hypothesis Hparsed : parseFunctionOrClass lineText language = Some parsed.
Hypothesis Hsingle : single_line lineText.
Hypothesis Hwindow :
  forall d,
    lines d = documented_lines above below (block_of language lineText parsed)
                               lineText 0 ->
    ~ marker_in_window d (length above).

Lemma block_length :
  length (block_of language lineText parsed) = block_height parsed.
Proof.
  destruct (parse_single_line _ _ _ Hparsed Hsingle) as [Hnm Hps].
  unfold block_of, block_height.
  rewrite length_map, (family_B_lines _ _ _ HB Hnm Hps).
  rewrite !length_app, length_map. simpl. lia.
Qed.

Lemma block_end :
  exists pre,
    block_of language lineText parsed
    = pre ++ [indentation lineText ++ lit " * @returns {any} DESCRIPTION";
              indentation lineText ++ lit " */"].
Proof.
  destruct (parse_single_line _ _ _ Hparsed Hsingle) as [Hnm Hps].
  unfold block_of. rewrite (family_B_lines _ _ _ HB Hnm Hps).
  rewrite app_assoc, map_app. eexists. reflexivity.
Qed.

Lemma lineText_no_marker : ~ has_marker lineText.
Proof.
  intros Hm.
  apply (Hwindow {| languageId := language;
                    lines := documented_lines above below
                               (block_of language lineText parsed) lineText 0 |});
    [reflexivity|].
  exists (length above), lineText. repeat split; [lia|lia| |exact Hm].
  unfold lineAt, documented_lines. cbn [lines repeat concat app].
  apply nth_error_exact.
Qed.

Lemma documented_prefix (j : nat) :
  length (above ++ concat (repeat (block_of language lineText parsed) j))
  = length above + j * block_height parsed.
Proof. now rewrite length_app, length_concat_repeat, block_length. Qed.

Lemma documented_lineAt (d : TextDocument) (j : nat) :
  lines d = documented_lines above below (block_of language lineText parsed)
                             lineText j ->
  lineAt d (length above + j * block_height parsed) = Some lineText.
Proof.
  intros H. unfold lineAt. rewrite H. unfold documented_lines.
  rewrite app_assoc, <- documented_prefix. apply nth_error_exact.
Qed.

Lemma documented_window (d : TextDocument) (j : nat) :
  lines d = documented_lines above below (block_of language lineText parsed)
                             lineText j ->
  ~ marker_in_window d (length above + j * block_height parsed).
Proof.
  destruct j as [|j]; intros H.
  - rewrite Nat.add_0_r. now apply Hwindow.
  - unfold documented_lines in H. rewrite concat_repeat_snoc in H.
    destruct block_end as [pre Hpre].
    pose proof block_length as Hlen. rewrite Hpre, length_app in Hlen.
    simpl in Hlen.
    pose proof (documented_prefix j) as Hprefix.
    rewrite Hpre in H at 2.
    assert (Hshape :
              lines d
              = ((above ++ concat (repeat (block_of language lineText parsed) j))
                   ++ pre)
                ++ [indentation lineText ++ lit " * @returns {any} DESCRIPTION";
                    indentation lineText ++ lit " */"; lineText] ++ below)
      by (rewrite H, <- !app_assoc; reflexivity).
    destruct (window_of_three d _ _ _ _ _
                (length above + S j * block_height parsed) Hshape) as [_ Hwin].
    { rewrite length_app, Hprefix. unfold jsstring in *. lia. }
    intros Hm. apply Hwin in Hm as [Hm|[Hm|Hm]].
    + revert Hm. apply no_marker_behind_space; [apply indentation_all_space|].
      intros [Hm|Hm]; vm_compute in Hm; discriminate.
    + revert Hm. apply no_marker_behind_space; [apply indentation_all_space|].
      intros [Hm|Hm]; vm_compute in Hm; discriminate.
    + now apply lineText_no_marker.
Qed.

(** A turn on the declaration under [j] copies: one more copy. *)
Lemma copies_insert (e : TextEditor) (j : nat) :
  lines (document e)
  = documented_lines above below (block_of language lineText parsed) lineText j ->
  exists e1,
    iteration language (length above + j * block_height parsed) e = Some e1
    /\ lines (document e1)
       = documented_lines above below (block_of language lineText parsed)
                          lineText (S j)
    /\ length (applied e1) = S (length (applied e)).
Proof.
  intros H.
  pose proof (documented_lineAt _ _ H) as Hl.
  rewrite (iteration_inserts language _ e lineText parsed Hl Hparsed
             (documented_window _ _ H)).
  destruct (insert_block e _ lineText
              (generateDocstring language (name parsed) (params parsed))
              Hl Hsingle) as (e1 & He1 & _ & Hlen & Hlines).
  exists e1. repeat split; auto.
  rewrite Hlines, H. unfold documented_lines.
  rewrite concat_repeat_snoc.
  rewrite (app_assoc above), <- documented_prefix.
  rewrite firstn_exact.
  replace (S (length (above ++ concat (repeat (block_of language lineText parsed) j))))
    with (length ((above ++ concat (repeat (block_of language lineText parsed) j))
                    ++ [lineText]))
    by (rewrite (length_app _ [lineText]); simpl; lia).
  replace ((above ++ concat (repeat (block_of language lineText parsed) j))
             ++ lineText :: below)
    with (((above ++ concat (repeat (block_of language lineText parsed) j))
             ++ [lineText]) ++ below)
    by (rewrite <- !app_assoc; reflexivity).
  rewrite skipn_exact. unfold block_of.
  rewrite <- !app_assoc. reflexivity.
Qed.

(** The turns after an insertion walk over the new copy. *)
Lemma copies_walk (e : TextEditor) (j r : nat) :
  lines (document e)
  = documented_lines above below (block_of language lineText parsed)
                     lineText (S j) ->
  r < block_height parsed ->
  scan language r (S (length above + j * block_height parsed)) e = Some e.
Proof.
  intros H Hr. apply scan_non_declarations. intros idx Hidx.
  unfold documented_lines in H. rewrite concat_repeat_snoc in H.
  pose proof (documented_prefix j) as Hprefix.
  pose proof block_length as Hlen.
  assert (Hat : lineAt (document e) idx
                = nth_error (block_of language lineText parsed)
                            (idx - (length above + j * block_height parsed))).
  { unfold lineAt. rewrite H.
    rewrite <- app_assoc, (app_assoc above).
    rewrite nth_error_app2 by lia. rewrite Hprefix.
    rewrite nth_error_app1 by lia. reflexivity. }
  rewrite Hat.
  destruct (nth_error (block_of language lineText parsed)
              (idx - (length above + j * block_height parsed))) as [l|] eqn:E;
    [|apply nth_error_None in E; lia].
  exists l. split; [reflexivity|].
  destruct (parse_single_line _ _ _ Hparsed Hsingle) as [Hnm Hps].
  apply (block_line_not_declaration language (indentation lineText)
           (name parsed) (params parsed));
    [apply indentation_all_space|assumption|assumption|].
  eapply nth_error_In; exact E.
Qed.

(** Up to a block's height of turns from the declaration: one copy. *)
Lemma copies_turns (e : TextEditor) (j r : nat) :
  lines (document e)
  = documented_lines above below (block_of language lineText parsed) lineText j ->
  r < block_height parsed ->
  exists e',
    scan language (S r) (length above + j * block_height parsed) e = Some e'
    /\ lines (document e')
       = documented_lines above below (block_of language lineText parsed)
                          lineText (S j)
    /\ length (applied e') = S (length (applied e)).
Proof.
  intros H Hr. cbn [scan].
  destruct (copies_insert e j H) as (e1 & -> & H1 & Hlen1).
  rewrite (copies_walk e1 j r H1 Hr). eauto.
Qed.

(** [q] times a block's height of turns: [q] copies. *)
Lemma copies_cycles (q : nat) :
  forall j e,
    lines (document e)
    = documented_lines above below (block_of language lineText parsed)
                       lineText j ->
    exists e',
      scan language (q * block_height parsed)
           (length above + j * block_height parsed) e = Some e'
      /\ lines (document e')
         = documented_lines above below (block_of language lineText parsed)
                            lineText (j + q)
      /\ length (applied e') = length (applied e) + q.
Proof.
  induction q as [|q IH]; intros j e H.
  - exists e. rewrite !Nat.add_0_r. auto.
  - cbn [Nat.mul]. rewrite scan_app.
    destruct (copies_turns e j (block_height parsed - 1) H)
      as (e1 & He1 & H1 & Hlen1); [unfold block_height; lia|].
    replace (S (block_height parsed - 1)) with (block_height parsed) in He1
      by (unfold block_height; lia).
    rewrite He1.
    destruct (IH (S j) e1 H1) as (e' & He' & H' & Hlen').
    exists e'.
    replace (length above + j * block_height parsed + block_height parsed)
      with (length above + S j * block_height parsed) by lia.
    repeat split; [exact He'| |lia].
    rewrite H'. f_equal. lia.
Qed.

(** All the turns the loop has from the declaration on. *)
Lemma copies_all (e : TextEditor) :
  lines (document e)
  = documented_lines above below (block_of language lineText parsed) lineText 0 ->
  exists e',
    scan language (S (length below)) (length above) e = Some e'
    /\ lines (document e')
       = documented_lines above below (block_of language lineText parsed)
                          lineText (S (length below / block_height parsed))
    /\ length (applied e')
       = length (applied e) + S (length below / block_height parsed).
Proof.
  intros H.
  assert (Hk : block_height parsed <> 0) by (unfold block_height; lia).
  pose proof (Nat.div_mod (length below) (block_height parsed) Hk) as Hdiv.
  pose proof (Nat.mod_upper_bound (length below) (block_height parsed) Hk) as Hmod.
  set (q := length below / block_height parsed) in *.
  set (r := length below mod block_height parsed) in *.
  replace (S (length below)) with (q * block_height parsed + S r) by lia.
  rewrite scan_app.
  destruct (copies_cycles q 0 e H) as (e1 & He1 & H1 & Hlen1).
  rewrite Nat.mul_0_l, Nat.add_0_r in He1. rewrite He1.
  destruct (copies_turns e1 q r H1 Hmod) as (e' & He' & H' & Hlen').
  exists e'. repeat split; [exact He'|exact H'|lia].
Qed.

End Copies.

(** *** Family A: one declaration *)

Lemma scan_unchanged (language : jsstring) (e : TextEditor) (r : nat) :
  forall n,
    (forall idx, n <= idx < n + r -> iteration language idx e = Some e) ->
    scan language r n e = Some e.
Proof.
  induction r as [|r IH]; intros n H; simpl; [reflexivity|].
  rewrite H by lia. apply IH. intros idx Hidx. apply H. lia.
Qed.

Lemma iteration_non_declaration (language : jsstring) (n : nat)
      (e : TextEditor) (l : jsstring) :
  lineAt (document e) n = Some l ->
  parseFunctionOrClass l language = None ->
  iteration language n e = Some e.
Proof. intros Hl Hp. unfold iteration. now rewrite Hl, Hp. Qed.

(** A document of one declaration under its Family A block: no turn of
    the loop changes it. *)
Lemma python_documented_stable (e : TextEditor) (above below : list jsstring)
      (lineText : jsstring) (parsed : declaration) :
  parseFunctionOrClass lineText python = Some parsed ->
  single_line lineText ->
  Forall (fun l => parseFunctionOrClass l python = None) above ->
  Forall (fun l => parseFunctionOrClass l python = None) below ->
  lines (document e)
  = above ++ block_of python lineText parsed ++ lineText :: below ->
  forall idx, idx < lineCount (document e) ->
              iteration python idx e = Some e.
Proof.
  intros Hparsed Hsingle Habove Hbelow Hlines idx Hidx.
  destruct (parse_single_line _ _ _ Hparsed Hsingle) as [Hnm Hps].
  destruct (lineAt_Some _ _ Hidx) as [l Hl].
  assert (Hblock : block_of python lineText parsed
                   = map (app (indentation lineText))
                         ([triple_quote ++ name parsed ++ lit " description."; []]
                          ++ map param_line_A (params parsed))
                     ++ [indentation lineText ++ lit ":return: DESCRIPTION";
                         indentation lineText ++ triple_quote]).
  { unfold block_of. rewrite (python_lines _ _ Hnm Hps).
    rewrite (app_assoc [_; _] (map param_line_A (params parsed))), map_app.
    reflexivity. }
  assert (Hlen : length (block_of python lineText parsed) = block_height parsed).
  { rewrite Hblock. unfold block_height.
    rewrite length_app, length_map, length_app, length_map. simpl. lia. }
  destruct (Nat.eq_dec idx (length above + block_height parsed)) as [->|Hne].
  - (* the declaration: the closing quotes are right above it *)
    assert (Hshape :
              lines (document e)
              = (above ++ map (app (indentation lineText))
                            ([triple_quote ++ name parsed ++ lit " description."; []]
                             ++ map param_line_A (params parsed)))
                ++ [indentation lineText ++ lit ":return: DESCRIPTION";
                    indentation lineText ++ triple_quote; lineText] ++ below)
      by (rewrite Hlines, Hblock, <- !app_assoc; reflexivity).
    destruct (window_of_three (document e) _ _ _ _ _
                (length above + block_height parsed) Hshape) as [Hat Hwin].
    { rewrite length_app, length_map, length_app, length_map.
      unfold block_height. simpl. lia. }
    apply (iteration_skips python _ e lineText Hat).
    apply Hwin. right; left. left. apply includes_app_left.
    rewrite <- (app_nil_r triple_quote) at 1. apply includes_self.
  - (* every other line is no declaration *)
    apply (iteration_non_declaration python idx e l Hl).
    unfold lineAt in Hl. rewrite Hlines in Hl.
    destruct (Nat.lt_ge_cases idx (length above)) as [H1|H1].
    + rewrite nth_error_app1 in Hl by assumption.
      rewrite Forall_forall in Habove. apply Habove.
      eapply nth_error_In; exact Hl.
    + rewrite nth_error_app2 in Hl by assumption.
      destruct (Nat.lt_ge_cases (idx - length above) (block_height parsed))
        as [H2|H2].
      * rewrite nth_error_app1 in Hl by (rewrite Hlen; exact H2).
        apply (block_line_not_declaration python (indentation lineText)
                 (name parsed) (params parsed));
          [apply indentation_all_space|assumption|assumption|].
        eapply nth_error_In; exact Hl.
      * rewrite nth_error_app2 in Hl by (rewrite Hlen; exact H2).
        rewrite Hlen in Hl.
        destruct (idx - length above - block_height parsed) as [|i] eqn:Ei;
          [lia|].
        cbn [nth_error] in Hl.
        rewrite Forall_forall in Hbelow. apply Hbelow.
        eapply nth_error_In; exact Hl.
Qed.

End LoopFacts.

(** ** What a run of the generator does to the document *)

Module Loop.
Import JS Regex VSCode Extension Properties Shapes Effects JSFacts EditorFacts
       RegexFacts TemplateFacts BlockFacts LoopFacts.

(** X11.  A run of the generator on any document ends without
    exception, keeps the language identifier and only adds edits to the
    list of applied ones: at most one per line of the document as it
    was, in the order of strictly increasing line numbers below the
    line count read at the start, each at column 0 with a text that
    ends with a line feed. *)
Theorem run_applies_line_edits (editor : TextEditor) :
  exists editor' news,
    generateDocstringsForFile editor = Some editor'
    /\ languageId (document editor') = languageId (document editor)
    /\ applied editor' = applied editor ++ news
    /\ length news <= lineCount (document editor)
    /\ Forall (whole_lines_edit 0 (lineCount (document editor))) news
    /\ StronglySorted lt (edit_lines news).
Proof.
  destruct (generateDocstringsForFile_total editor) as [e' He].
  pose proof He as H. unfold generateDocstringsForFile in H.
  apply scan_log in H as (Hlang & news & Happ & Hlen & Hall & Hsorted).
  exists e', news. repeat split; auto.
Qed.

(** X12.  On a document whose lines hold no line feed, a run of the
    generator deletes, changes and reorders nothing: the lines that were
    there are still there in their order, among the inserted ones; the
    document stays well formed and has grown by exactly as many lines
    as the texts of the new edits hold line feeds. *)
Theorem run_keeps_lines (editor : TextEditor) :
  well_formed (document editor) ->
  exists editor' news,
    generateDocstringsForFile editor = Some editor'
    /\ subseq (lines (document editor)) (lines (document editor'))
    /\ well_formed (document editor')
    /\ applied editor' = applied editor ++ news
    /\ lineCount (document editor')
       = lineCount (document editor) + line_feeds news.
Proof.
  intros Hwf.
  destruct (generateDocstringsForFile_total editor) as [e' He].
  pose proof (generateDocstringsForFile_well_formed _ _ Hwf He) as Hwf'.
  pose proof He as H. unfold generateDocstringsForFile in H.
  apply (scan_keeps_lines _ _ _ _ _ Hwf) in H as (Hsub & news & Happ & Hcount).
  exists e', news. repeat split; auto.
Qed.

(** The theorem on a Family A file of two functions. *)
Lemma run_keeps_lines_witness :
  let editor := open python [lit "def a():"; lit "    return 1"; lit "def b(x):"] in
  well_formed (document editor)
  /\ exists editor' news,
       generateDocstringsForFile editor = Some editor'
       /\ subseq (lines (document editor)) (lines (document editor'))
       /\ lineCount (document editor') = 3 + line_feeds news.
Proof.
  cbv zeta.
  assert (Hwf : well_formed
                  (document (open python [lit "def a():"; lit "    return 1";
                                          lit "def b(x):"])))
    by (repeat constructor; single_line_by_evaluation).
  split; [exact Hwf|].
  destruct (run_keeps_lines _ Hwf) as (e' & news & He & Hsub & _ & _ & Hcount).
  exists e', news. repeat split; auto.
Defined.

(** X14.  In a document of a language without template (any identifier
    but python, javascript and typescript) whose first declaration
    stands at line n of T lines, with no marker on it or on the two
    lines above, a run of the generator finds the declaration again at
    every later turn, one line lower each time: it applies T - n edits
    and puts T - n lines of the declaration's indentation above it;
    nothing else changes. *)
Theorem no_template_floods (editor : TextEditor) (above below : list jsstring)
        (lineText : jsstring) (parsed : declaration) :
  without_template (languageId (document editor)) ->
  lines (document editor) = above ++ lineText :: below ->
  Forall (fun l => parseFunctionOrClass l (languageId (document editor)) = None)
         above ->
  parseFunctionOrClass lineText (languageId (document editor)) = Some parsed ->
  single_line lineText ->
  ~ marker_in_window (document editor) (length above) ->
  exists editor',
    generateDocstringsForFile editor = Some editor'
    /\ lines (document editor')
       = above ++ repeat (indentation lineText) (S (length below))
         ++ lineText :: below
    /\ length (applied editor') = length (applied editor) + S (length below).
Proof.
  intros Hlang Hlines Habove Hparsed Hsingle Hwin.
  unfold generateDocstringsForFile, lineCount.
  rewrite Hlines, length_app. cbn [length].
  rewrite scan_app.
  rewrite (scan_non_declarations _ editor).
  - rewrite Nat.add_0_l, <- (Nat.add_0_r (length above)).
    destruct (flood _ lineText parsed above below Hlang Hparsed Hsingle)
      with (r := S (length below)) (j := 0) (e := editor)
      as (e' & He' & Hl' & Hlen'); [|exact Hlines|].
    + intros d Hd. intros H. apply Hwin.
      apply (marker_in_window_lines d); [|exact H].
      rewrite Hd, Hlines. reflexivity.
    + exists e'. repeat split; auto.
  - intros k Hk.
    destruct (nth_error above k) as [l|] eqn:E;
      [|apply nth_error_None in E; lia].
    exists l. split.
    + unfold lineAt. rewrite Hlines, nth_error_app1 by lia. exact E.
    + rewrite Forall_forall in Habove. apply Habove.
      eapply nth_error_In; eassumption.
Qed.

(** The theorem on a Java file of three lines with the class at line 1:
    two lines of two spaces appear above the class. *)
Lemma no_template_floods_witness :
  let editor := open (lit "java") [lit "// shapes"; lit "  class A {"; lit "  }"] in
  without_template (languageId (document editor))
  /\ ~ marker_in_window (document editor) 1
  /\ exists editor',
       generateDocstringsForFile editor = Some editor'
       /\ lines (document editor')
          = [lit "// shapes"; lit "  "; lit "  "; lit "  class A {"; lit "  }"].
Proof.
  cbv zeta.
  assert (Hlang : without_template (lit "java"))
    by (repeat split; vm_compute; discriminate).
  assert (Hwin : ~ marker_in_window
                   (document (open (lit "java")
                      [lit "// shapes"; lit "  class A {"; lit "  }"])) 1).
  { destruct (hasDocstring_window
                (document (open (lit "java")
                   [lit "// shapes"; lit "  class A {"; lit "  }"])) 1)
      as (b & Hb & Hiff); [vm_compute; lia|].
    vm_compute in Hb. injection Hb as <-.
    intros H. apply Hiff in H. discriminate. }
  split; [exact Hlang|]. split; [exact Hwin|].
  destruct (no_template_floods
              (open (lit "java") [lit "// shapes"; lit "  class A {"; lit "  }"])
              [lit "// shapes"] [lit "  }"] (lit "  class A {")
              {| type := class; name := lit "A"; params := [] |}
              Hlang eq_refl)
    as (e' & He' & Hl' & _).
  - repeat constructor.
  - reflexivity.
  - single_line_by_evaluation.
  - exact Hwin.
  - exists e'. split; [exact He'|]. rewrite Hl'. reflexivity.
Defined.

(** X16.  In a javascript or typescript document whose first
    declaration stands at line n, with no marker on it or on the two
    lines above, the loop never gets past that declaration: after each
    insertion it walks over the new block, finds the declaration again
    without marker in its window and inserts once more.  With b lines
    below the declaration and blocks of k = 4 + (number of parameters)
    lines, a run applies 1 + b / k edits and leaves as many copies of
    the block above the declaration; the lines below it are never
    read, whatever they hold. *)
Theorem family_B_stuck_on_first (editor : TextEditor)
        (above below : list jsstring) (lineText : jsstring)
        (parsed : declaration) :
  languageId (document editor) = javascript
  \/ languageId (document editor) = typescript ->
  lines (document editor) = above ++ lineText :: below ->
  Forall (fun l => parseFunctionOrClass l (languageId (document editor)) = None)
         above ->
  parseFunctionOrClass lineText (languageId (document editor)) = Some parsed ->
  single_line lineText ->
  ~ marker_in_window (document editor) (length above) ->
  exists editor',
    generateDocstringsForFile editor = Some editor'
    /\ lines (document editor')
       = above
         ++ concat (repeat (block_of (languageId (document editor)) lineText parsed)
                           (S (length below / block_height parsed)))
         ++ lineText :: below
    /\ length (applied editor')
       = length (applied editor) + S (length below / block_height parsed).
Proof.
  intros HB Hlines Habove Hparsed Hsingle Hwin.
  unfold generateDocstringsForFile, lineCount.
  rewrite Hlines, length_app. cbn [length].
  rewrite scan_app.
  rewrite (scan_non_declarations _ editor).
  - rewrite Nat.add_0_l.
    apply (copies_all _ lineText parsed above below HB Hparsed Hsingle);
      [|exact Hlines].
    intros d Hd H. apply Hwin.
    apply (marker_in_window_lines d); [|exact H].
    rewrite Hd, Hlines. reflexivity.
  - intros k Hk.
    destruct (nth_error above k) as [l|] eqn:E;
      [|apply nth_error_None in E; lia].
    exists l. split.
    + unfold lineAt. rewrite Hlines, nth_error_app1 by lia. exact E.
    + rewrite Forall_forall in Habove. apply Habove.
      eapply nth_error_In; eassumption.
Qed.

(** The theorem on a javascript file of two functions and eight lines:
    the first function gets its block twice, the second none. *)
Lemma family_B_stuck_on_first_witness :
  let below := [lit "  return a + b;"; lit "}"; lit "";
                lit "function sub(a, b) {"; lit "  return a - b;"; lit "}";
                lit ""] in
  let editor := open javascript (lit "function add(a, b) {" :: below) in
  let block :=
    split LF (generateDocstring javascript (lit "add") [lit "a"; lit "b"]) in
  ~ marker_in_window (document editor) 0
  /\ exists editor',
       generateDocstringsForFile editor = Some editor'
       /\ lines (document editor')
          = block ++ block ++ lit "function add(a, b) {" :: below
       /\ length (applied editor') = 2.
Proof.
  cbv zeta.
  match goal with
  | |- ~ marker_in_window (document ?e) 0 /\ _ =>
      assert (Hwin : ~ marker_in_window (document e) 0)
  end.
  { match goal with
    | |- ~ marker_in_window ?d ?n =>
        destruct (hasDocstring_window d n) as (b & Hb & Hiff);
          [vm_compute; lia|]
    end.
    vm_compute in Hb. injection Hb as <-.
    intros H. apply Hiff in H. discriminate. }
  split; [exact Hwin|].
  match type of Hwin with
  | ~ marker_in_window (document ?e) 0 =>
      destruct (family_B_stuck_on_first e []
                  [lit "  return a + b;"; lit "}"; lit "";
                   lit "function sub(a, b) {"; lit "  return a - b;"; lit "}";
                   lit ""]
                  (lit "function add(a, b) {")
                  {| type := function; name := lit "add";
                     params := [lit "a"; lit "b"] |}
                  (or_introl eq_refl) eq_refl)
        as (e' & He' & Hl' & Hlen')
  end.
  - constructor.
  - reflexivity.
  - single_line_by_evaluation.
  - exact Hwin.
  - exists e'. split; [exact He'|]. split.
    + rewrite Hl'. reflexivity.
    + rewrite Hlen'. reflexivity.
Defined.

(** X17.  In a python document with one declaration, at line n with no
    marker on it or on the two lines above, and no declaration on any
    other line, a run applies one edit and puts the block of the
    declaration above it; a second run on the result changes nothing. *)
Theorem python_single_declaration (editor : TextEditor)
        (above below : list jsstring) (lineText : jsstring)
        (parsed : declaration) :
  languageId (document editor) = python ->
  lines (document editor) = above ++ lineText :: below ->
  Forall (fun l => parseFunctionOrClass l python = None) above ->
  Forall (fun l => parseFunctionOrClass l python = None) below ->
  parseFunctionOrClass lineText python = Some parsed ->
  single_line lineText ->
  ~ marker_in_window (document editor) (length above) ->
  exists editor',
    generateDocstringsForFile editor = Some editor'
    /\ lines (document editor')
       = above ++ block_of python lineText parsed ++ lineText :: below
    /\ length (applied editor') = S (length (applied editor))
    /\ generateDocstringsForFile editor' = Some editor'.
Proof.
  intros Hpy Hlines Habove Hbelow Hparsed Hsingle Hwin.
  assert (Hl : lineAt (document editor) (length above) = Some lineText)
    by (unfold lineAt; rewrite Hlines; apply nth_error_exact).
  destruct (insert_block editor (length above) lineText
              (generateDocstring python (name parsed) (params parsed))
              Hl Hsingle) as (e1 & He1 & Hlang1 & Hlen1 & Hlines1).
  assert (Hshape : lines (document e1)
                   = above ++ block_of python lineText parsed
                     ++ lineText :: below).
  { rewrite Hlines1, Hlines. rewrite firstn_exact.
    replace (S (length above)) with (length (above ++ [lineText]))
      by (rewrite length_app; simpl; lia).
    replace (above ++ lineText :: below) with ((above ++ [lineText]) ++ below)
      by (rewrite <- app_assoc; reflexivity).
    rewrite skipn_exact. reflexivity. }
  pose proof (python_documented_stable e1 above below lineText parsed
                Hparsed Hsingle Habove Hbelow Hshape) as Hstable.
  exists e1. split; [|split; [exact Hshape|split; [exact Hlen1|]]].
  - unfold generateDocstringsForFile, lineCount.
    rewrite Hpy, Hlines, length_app. cbn [length].
    rewrite scan_app.
    rewrite (scan_non_declarations _ editor).
    + rewrite Nat.add_0_l. cbn [scan].
      rewrite (iteration_inserts python _ editor lineText parsed Hl Hparsed Hwin).
      rewrite He1. apply scan_unchanged.
      intros idx Hidx. apply Hstable.
      unfold lineCount. rewrite Hshape, !length_app. cbn [length]. lia.
    + intros k Hk.
      destruct (nth_error above k) as [l|] eqn:E;
        [|apply nth_error_None in E; lia].
      exists l. split.
      * unfold lineAt. rewrite Hlines, nth_error_app1 by lia. exact E.
      * rewrite Forall_forall in Habove. apply Habove.
        eapply nth_error_In; eassumption.
  - unfold generateDocstringsForFile. rewrite Hlang1, Hpy.
    apply scan_unchanged. intros idx Hidx. apply Hstable. lia.
Qed.

(** The theorem on a module with a comment, one function and its body. *)
Lemma python_single_declaration_witness :
  let editor :=
    open python [lit "# area"; lit "def area(w, h):"; lit "    return w * h"] in
  ~ marker_in_window (document editor) 1
  /\ exists editor',
       generateDocstringsForFile editor = Some editor'
       /\ length (lines (document editor')) = 9
       /\ generateDocstringsForFile editor' = Some editor'.
Proof.
  cbv zeta.
  match goal with
  | |- ~ marker_in_window (document ?e) 1 /\ _ =>
      assert (Hwin : ~ marker_in_window (document e) 1)
  end.
  { match goal with
    | |- ~ marker_in_window ?d ?n =>
        destruct (hasDocstring_window d n) as (b & Hb & Hiff);
          [vm_compute; lia|]
    end.
    vm_compute in Hb. injection Hb as <-.
    intros H. apply Hiff in H. discriminate. }
  split; [exact Hwin|].
  match type of Hwin with
  | ~ marker_in_window (document ?e) 1 =>
      destruct (python_single_declaration e [lit "# area"]
                  [lit "    return w * h"] (lit "def area(w, h):")
                  {| type := function; name := lit "area";
                     params := [lit "w"; lit "h"] |}
                  eq_refl eq_refl)
        as (e' & He' & Hl' & _ & Hagain)
  end.
  - repeat constructor.
  - repeat constructor.
  - reflexivity.
  - single_line_by_evaluation.
  - exact Hwin.
  - exists e'. split; [exact He'|]. split; [|exact Hagain].
    rewrite Hl'. reflexivity.
Defined.

End Loop.

(** ** The command as a whole *)

Module CommandFacts.
Import JS VSCode Extension Properties Command EditorFacts.

(** X15.  The command never stops with an exception and shows exactly
    one message.  Without active editor the message is "No active
    editor found." and nothing else happens; with one, the generator
    runs on it and the message is "Docstrings inserted for all
    functions/classes in file!", whether or not an edit was applied. *)
Theorem command_reports (w : Window) :
  exists w' message,
    run w = Some w'
    /\ shown w' = shown w ++ [message]
    /\ match activeTextEditor w with
       | None =>
           message = no_editor_message /\ activeTextEditor w' = None
       | Some editor =>
           message = done_message
           /\ activeTextEditor w' = generateDocstringsForFile editor
       end.
Proof.
  unfold run. destruct (activeTextEditor w) as [editor|] eqn:E.
  - destruct (generateDocstringsForFile_total editor) as [e' He].
    rewrite He. eexists _, _. split; [reflexivity|].
    split; [reflexivity|]. auto.
  - eexists _, _. split; [reflexivity|].
    cbn [showInformationMessage shown activeTextEditor].
    rewrite E. auto.
Qed.

End CommandFacts.

(** ** Languages other than python *)

Module Languages.
Import JS Regex VSCode Extension Properties Shapes JSFacts EditorFacts
       RegexFacts BlockFacts.

Lemma function_keyword_not_python (language : jsstring) :
  language <> python -> function_keyword language = lit "function".
Proof.
  intros H. unfold function_keyword. apply eqb_neq in H. now rewrite H.
Qed.

(** C10, as stated, fails: in a Java file the line "class Foo {" is a
    declaration for the matcher, but with a block comment on the line
    above the loop goes on to neither the template nor the insertion;
    the turn and the whole run leave the editor as it was, without any
    edit. *)
Lemma documented_line_is_not_inserted :
  let editor := open (lit "java") [lit "/** Foo */"; lit "class Foo {"] in
  lit "java" <> python
  /\ matches classRegex_any (lit "class Foo {")
  /\ parseFunctionOrClass (lit "class Foo {") (lit "java")
     = Some {| type := class; name := lit "Foo"; params := [] |}
  /\ iteration (lit "java") 1 editor = Some editor
  /\ generateDocstringsForFile editor = Some editor
  /\ applied editor = []
  /\ insertDocstringAtLine editor 1 (generateDocstring (lit "java") (lit "Foo") [])
     <> Some editor.
Proof.
  cbv zeta. repeat split; try reflexivity.
  - vm_compute. discriminate.
  - eexists. vm_compute. reflexivity.
  - vm_compute. discriminate.
Qed.

(** C10, amended.  For every language identifier other than python the
    matcher uses the Family B patterns and answers as it does for
    javascript: a line matching the function pattern is a function
    declaration with the name and the parameters of its groups, a line
    matching only the class pattern is a class declaration with the name
    of its group and no parameters, and a line matching neither is none;
    in terms of the line, a "function" line and a "class" line are
    declarations with their name (and parameters).  For a declaration
    the loop then goes on to the existing-documentation check, the same
    for every language: with a marker on the line or on the two lines
    above nothing is inserted, and without one the template of the
    language is rendered for the declaration and inserted by one edit at
    column 0 of the line. *)
Theorem other_languages_use_family_B (language line : jsstring) :
  language <> python ->
  funcRegex language = funcRegex_other
  /\ classRegex language = classRegex_any
  /\ parseFunctionOrClass line language = parseFunctionOrClass line javascript
  /\ (forall m,
        exec funcRegex_other line = Some m ->
        parseFunctionOrClass line language
        = Some {| type := function; name := group m 1;
                  params := parameters (group m 2) |})
  /\ (forall m,
        exec funcRegex_other line = None ->
        exec classRegex_any line = Some m ->
        parseFunctionOrClass line language
        = Some {| type := class; name := group m 1; params := [] |})
  /\ (exec funcRegex_other line = None ->
      exec classRegex_any line = None ->
      parseFunctionOrClass line language = None)
  /\ (forall nm args,
        function_shape (lit "function") line nm args ->
        parseFunctionOrClass line language
        = Some {| type := function; name := nm; params := parameters args |})
  /\ (forall nm,
        class_shape line nm ->
        parseFunctionOrClass line language
        = Some {| type := class; name := nm; params := [] |})
  /\ forall parsed editor n,
       parseFunctionOrClass line language = Some parsed ->
       lineAt (document editor) n = Some line ->
       (marker_in_window (document editor) n ->
        iteration language n editor = Some editor)
       /\ (~ marker_in_window (document editor) n ->
           exists editor',
             iteration language n editor = Some editor'
             /\ insertDocstringAtLine editor n
                  (generateDocstring language (name parsed) (params parsed))
                = Some editor'
             /\ applied editor'
                = applied editor
                  ++ [({| line := n; character := 0 |},
                       reindented (indentation line)
                         (generateDocstring language (name parsed) (params parsed))
                       ++ [LF])]).
Proof.
  intros Hpy.
  pose proof (Orchestration.funcRegex_not_python language Hpy) as Hf.
  pose proof (Orchestration.classRegex_any_language language) as Hc.
  pose proof (function_keyword_not_python language Hpy) as Hkw.
  split; [exact Hf|]. split; [exact Hc|].
  split; [unfold parseFunctionOrClass; rewrite Hf, Hc; reflexivity|].
  split; [intros m Hm; unfold parseFunctionOrClass; rewrite Hf, Hm; reflexivity|].
  split; [intros m Hn Hm; unfold parseFunctionOrClass;
          rewrite Hf, Hc, Hn, Hm; reflexivity|].
  split; [intros Hn Hm; unfold parseFunctionOrClass;
          rewrite Hf, Hc, Hn, Hm; reflexivity|].
  split; [intros nm args Hs; apply parse_function_line; rewrite Hkw; exact Hs|].
  split; [intros nm Hs; now apply parse_class_line|].
  intros parsed editor n Hparsed Hl. split.
  - intros Hm. now apply (iteration_skips language n editor line).
  - intros Hno.
    rewrite (iteration_inserts language n editor line parsed Hl Hparsed Hno).
    rewrite (insertDocstringAtLine_eq _ _ _ _ Hl).
    eexists. split; [reflexivity|]. split; reflexivity.
Qed.

(** The theorem on a Java file of one line, a class: the class is a
    declaration named Foo, and the turn on it applies one edit at
    column 0 of its line. *)
Lemma other_languages_use_family_B_witness :
  let editor := open (lit "java") [lit "class Foo {"] in
  lit "java" <> python
  /\ class_shape (lit "class Foo {") (lit "Foo")
  /\ parseFunctionOrClass (lit "class Foo {") (lit "java")
     = Some {| type := class; name := lit "Foo"; params := [] |}
  /\ ~ marker_in_window (document editor) 0
  /\ exists editor',
       iteration (lit "java") 0 editor = Some editor'
       /\ applied editor' = [({| line := 0; character := 0 |}, [LF])].
Proof.
  cbv zeta.
  assert (Hpy : lit "java" <> python) by (vm_compute; discriminate).
  assert (Hshape : class_shape (lit "class Foo {") (lit "Foo")).
  { exists [], (lit " "), (lit " {"). split; [reflexivity|].
    repeat split; try discriminate; unfold all; repeat constructor. }
  assert (Hwin : ~ marker_in_window
                   (document (open (lit "java") [lit "class Foo {"])) 0).
  { destruct (hasDocstring_window
                (document (open (lit "java") [lit "class Foo {"])) 0)
      as (b & Hb & Hiff); [vm_compute; lia|].
    vm_compute in Hb. injection Hb as <-.
    intros H. apply Hiff in H. discriminate. }
  destruct (other_languages_use_family_B (lit "java") (lit "class Foo {") Hpy)
    as (_ & _ & _ & _ & _ & _ & _ & Hclass & Hturn).
  pose proof (Hclass (lit "Foo") Hshape) as Hparsed.
  split; [exact Hpy|]. split; [exact Hshape|]. split; [exact Hparsed|].
  split; [exact Hwin|].
  destruct (Hturn _ (open (lit "java") [lit "class Foo {"]) 0 Hparsed eq_refl)
    as [_ Hinsert].
  destruct (Hinsert Hwin) as (e' & He' & _ & Happ).
  exists e'. split; [exact He'|]. rewrite Happ. reflexivity.
Defined.

End Languages.
